(** * Agent marketplace: relational core of [server.js]

    A shallow embedding of the Express/SQLite server: the session map, the
    five tables, the SQL statements the handlers issue, and the handlers
    themselves ([POST /api/login], [POST /api/logout], [POST /submit],
    [POST /rate], [GET /browse], [GET /fork/:id], [GET /agent/:id]).

    Conventions of the embedding.
    - A JavaScript string is a Rocq [string]; its characters are read as code
      units in the range 0..255.
    - A JavaScript number that holds an integer is a [Z]; [NaN] is explicit.
      The embedding is exact for magnitudes up to 2^53.
    - A request-body field is [option string]: [None] is [undefined].
    - [CURRENT_TIMESTAMP] and the random session id are supplied by the
      environment of each request ([now], [fresh]).
    - [AVG] and the trending score are exact rationals, where the engine
      computes in floating point.
    - The connection never issues [PRAGMA foreign_keys = ON], so the declared
      foreign keys are not enforced (the engine's default); [NOT NULL],
      [CHECK], [UNIQUE] and [PRIMARY KEY ... AUTOINCREMENT] are. *)

From Stdlib Require Import ZArith QArith Qround Lqa String Ascii List Lia Bool.
From stdpp Require Import base option list sorting gmap strings.

Local Open Scope string_scope.
Local Open Scope list_scope.
Local Open Scope Z_scope.

(** ** JavaScript primitives used by the handlers *)

Module JS.

Inductive number := NaN | Num (z : Z).

Definition isNaN (n : number) : bool :=
  match n with NaN => true | Num _ => false end.

(** [ToBoolean] on a number: [NaN] and zero are falsy. *)
Definition truthy_number (n : number) : bool :=
  match n with NaN => false | Num z => negb (z =? 0) end.

(** [ToBoolean] on a body field: [undefined] and the empty string are falsy. *)
Definition truthy (v : option string) : bool :=
  match v with
  | None => false
  | Some s => negb (String.eqb s "")
  end.

(** [ToString] on a body field, as a template literal performs it. *)
Definition toString (v : option string) : string :=
  match v with None => "undefined" | Some s => s end.

Definition chars (s : string) : list ascii := list_ascii_of_string s.

Definition code (c : ascii) : Z := Z.of_nat (nat_of_ascii c).

(** White space and line terminators among the code units 0..255. *)
Definition isStrWhiteSpaceChar (c : ascii) : bool :=
  let n := code c in
  ((9 <=? n) && (n <=? 13)) || (n =? 32) || (n =? 160).

Fixpoint trimStart (s : list ascii) : list ascii :=
  match s with
  | c :: s' => if isStrWhiteSpaceChar c then trimStart s' else s
  | [] => []
  end.

Definition digitValue (c : ascii) : option Z :=
  let n := code c in
  if (48 <=? n) && (n <=? 57) then Some (n - 48)
  else if (97 <=? n) && (n <=? 122) then Some (n - 87)
  else if (65 <=? n) && (n <=? 90) then Some (n - 55)
  else None.

Definition radixDigit (R : Z) (c : ascii) : option Z :=
  match digitValue c with
  | Some d => if d <? R then Some d else None
  | None => None
  end.

(** The longest prefix of radix-[R] digits. *)
Fixpoint digitsPrefix (R : Z) (s : list ascii) : list Z :=
  match s with
  | c :: s' =>
      match radixDigit R c with
      | Some d => d :: digitsPrefix R s'
      | None => []
      end
  | [] => []
  end.

Definition mathInt (R : Z) (ds : list Z) : Z :=
  fold_left (fun acc d => acc * R + d) ds 0.

(** [parseInt(string)] with the radix left out: leading white space is
    dropped, a sign is read, a [0x]/[0X] prefix selects radix 16, and the
    longest digit prefix is converted; no digit at all gives [NaN]. *)
Definition parseInt_chars (s : list ascii) : number :=
  let S0 := trimStart s in
  let '(sign, S1) :=
    match S0 with
    | "-"%char :: r => (-1, r)
    | "+"%char :: r => (1, r)
    | _ => (1, S0)
    end in
  let '(R, S2) :=
    match S1 with
    | "0"%char :: "x"%char :: r => (16, r)
    | "0"%char :: "X"%char :: r => (16, r)
    | _ => (10, S1)
    end in
  match digitsPrefix R S2 with
  | [] => NaN
  | ds => Num (sign * mathInt R ds)
  end.

(** The result is the integer the digits denote. A JavaScript number holds
    it exactly when its magnitude is at most 2^53; a longer run of digits is
    rounded by the language to the nearest double, which this definition
    does not do. *)
Definition parseInt (v : option string) : number :=
  parseInt_chars (chars (toString v)).

Definition lt (n : number) (k : Z) : bool :=
  match n with NaN => false | Num z => z <? k end.

Definition gt (n : number) (k : Z) : bool :=
  match n with NaN => false | Num z => k <? z end.

End JS.

(** ** Regular expressions, matched by derivatives *)

Module RegExp.

(** A character class is a list of inclusive code-unit ranges. *)
Definition class := list (Z * Z).

Definition in_class (k : class) (c : ascii) : bool :=
  existsb (fun '(lo, hi) => (lo <=? JS.code c) && (JS.code c <=? hi)) k.

Inductive t :=
| Void
| Eps
| Class (k : class)
| Cat (r1 r2 : t)
| Alt (r1 r2 : t)
| Star (r : t).

Definition class_eqb (k1 k2 : class) : bool :=
  bool_decide (k1 = k2).

Fixpoint eqb (r1 r2 : t) : bool :=
  match r1, r2 with
  | Void, Void => true
  | Eps, Eps => true
  | Class k1, Class k2 => class_eqb k1 k2
  | Cat a1 b1, Cat a2 b2 => eqb a1 a2 && eqb b1 b2
  | Alt a1 b1, Alt a2 b2 => eqb a1 a2 && eqb b1 b2
  | Star a1, Star a2 => eqb a1 a2
  | _, _ => false
  end.

Fixpoint nullable (r : t) : bool :=
  match r with
  | Void => false
  | Eps => true
  | Class _ => false
  | Cat r1 r2 => nullable r1 && nullable r2
  | Alt r1 r2 => nullable r1 || nullable r2
  | Star _ => true
  end.

Definition cat (r1 r2 : t) : t :=
  match r1, r2 with
  | Void, _ => Void
  | _, Void => Void
  | Eps, _ => r2
  | _, Eps => r1
  | _, _ => Cat r1 r2
  end.

(** Is [r] already one of the alternatives of [alts]? *)
Fixpoint is_alternative (r alts : t) : bool :=
  eqb r alts ||
  match alts with
  | Alt a b => is_alternative r a || is_alternative r b
  | _ => false
  end.

(** Union that drops [Void] and an alternative already present, so that the
    derivatives of a starred star stay small. *)
Fixpoint alt (r1 r2 : t) : t :=
  match r1 with
  | Void => r2
  | Alt a b => alt a (alt b r2)
  | _ =>
      match r2 with
      | Void => r1
      | _ => if is_alternative r1 r2 then r2 else Alt r1 r2
      end
  end.

Fixpoint deriv (c : ascii) (r : t) : t :=
  match r with
  | Void => Void
  | Eps => Void
  | Class k => if in_class k c then Eps else Void
  | Cat r1 r2 =>
      if nullable r1
      then alt (cat (deriv c r1) r2) (deriv c r2)
      else cat (deriv c r1) r2
  | Alt r1 r2 => alt (deriv c r1) (deriv c r2)
  | Star r1 => cat (deriv c r1) (Star r1)
  end.

(** [/^r$/.test(s)]: the whole input belongs to the language of [r]. *)
Definition test (r : t) (s : string) : bool :=
  nullable (fold_left (fun r c => deriv c r) (JS.chars s) r).

Definition chr (c : ascii) : t := Class [(JS.code c, JS.code c)].
Definition opt (r : t) : t := Alt Eps r.
Definition plus (r : t) : t := Cat r (Star r).

Fixpoint lit (s : list ascii) : t :=
  match s with
  | [] => Eps
  | c :: s' => Cat (chr c) (lit s')
  end.

Fixpoint upto (n : nat) (r : t) : t :=
  match n with
  | O => Eps
  | S n' => opt (Cat r (upto n' r))
  end.

(** [r{lo,hi}] with [hi = lo + extra]. *)
Fixpoint repeat (lo extra : nat) (r : t) : t :=
  match lo with
  | O => upto extra r
  | S lo' => Cat r (repeat lo' extra r)
  end.

(** [\d], [a-z] and [\w] *)
Definition digit : class := [(48, 57)].
Definition lower : class := [(97, 122)].
Definition word : class := [(97, 122); (65, 90); (48, 57); (95, 95)].

Definition one (c : ascii) : class := [(JS.code c, JS.code c)].

End RegExp.

(** The pattern [urlPattern] of [POST /submit], anchored at both ends and
    without flags. Its pieces, in order: an optional scheme [https?:\/\/];
    a host [[\da-z\.-]+]; a literal dot; a suffix [[a-z\.]{2,6}]; a starred
    group of the starred class [[\/\w \.-]]; an optional final slash. *)
Definition urlPattern : RegExp.t :=
  let scheme :=
    RegExp.Cat (RegExp.lit (JS.chars "http"))
      (RegExp.Cat (RegExp.opt (RegExp.chr "s")) (RegExp.lit (JS.chars "://"))) in
  let host : RegExp.class :=
    RegExp.digit ++ RegExp.lower ++ RegExp.one "." ++ RegExp.one "-" in
  let tld : RegExp.class := RegExp.lower ++ RegExp.one "." in
  let path : RegExp.class :=
    RegExp.one "/" ++ RegExp.word ++ RegExp.one " "
      ++ RegExp.one "." ++ RegExp.one "-" in
  RegExp.Cat (RegExp.opt scheme)
    (RegExp.Cat (RegExp.plus (RegExp.Class host))
      (RegExp.Cat (RegExp.chr ".")
        (RegExp.Cat (RegExp.repeat 2 4 (RegExp.Class tld))
          (RegExp.Cat (RegExp.Star (RegExp.Star (RegExp.Class path)))
            (RegExp.opt (RegExp.chr "/")))))).

(** The language of a regular expression. *)
Inductive matches : RegExp.t -> list ascii -> Prop :=
| matches_eps : matches RegExp.Eps []
| matches_class k c :
    RegExp.in_class k c = true -> matches (RegExp.Class k) [c]
| matches_cat r1 r2 s1 s2 :
    matches r1 s1 -> matches r2 s2 -> matches (RegExp.Cat r1 r2) (s1 ++ s2)
| matches_alt_l r1 r2 s : matches r1 s -> matches (RegExp.Alt r1 r2) s
| matches_alt_r r1 r2 s : matches r2 s -> matches (RegExp.Alt r1 r2) s
| matches_star_nil r : matches (RegExp.Star r) []
| matches_star_cons r s1 s2 :
    matches r s1 -> matches (RegExp.Star r) s2 ->
    matches (RegExp.Star r) (s1 ++ s2).

(** ** The SQL engine's [LIKE] and the five tables *)

Module SQL.

(** [LIKE] folds the case of ASCII letters only. *)
Definition fold_case (c : ascii) : ascii :=
  let n := JS.code c in
  if (65 <=? n) && (n <=? 90) then ascii_of_nat (Z.to_nat (n + 32)) else c.

(** [text LIKE pattern] without [ESCAPE]: [%] matches any run of
    characters, [_] exactly one, any other character itself up to case. *)
Fixpoint like_chars (p s : list ascii) : bool :=
  match p with
  | [] => match s with [] => true | _ :: _ => false end
  | c :: p' =>
      if Ascii.eqb c "%" then
        (fix skip (s : list ascii) : bool :=
           like_chars p' s ||
           match s with [] => false | _ :: s' => skip s' end) s
      else
        match s with
        | [] => false
        | d :: s' =>
            (Ascii.eqb c "_" || Ascii.eqb (fold_case c) (fold_case d))
            && like_chars p' s'
        end
  end.

(** The engine's [LIKE] reads both operands as C strings: each ends at its
    first code unit 0, whatever follows it in the stored or bound text. *)
Fixpoint upto_nul (s : list ascii) : list ascii :=
  match s with
  | [] => []
  | c :: s' => if Ascii.eqb c "000" then [] else c :: upto_nul s'
  end.

Definition like (text pattern : string) : bool :=
  like_chars (upto_nul (JS.chars pattern)) (upto_nul (JS.chars text)).

Inductive error := SQLITE_CONSTRAINT.

Inductive result (A : Type) :=
| Ok (a : A)
| Err (e : error).
Arguments Ok {A} a.
Arguments Err {A} e.

End SQL.

Module User.
Record t := mk {
  id : Z;
  wallet_address : string;
  subscription_tier : string;
  lens_handle : option string;
  farcaster_handle : option string;
  created_at : Z;
  last_login : Z
}.
End User.

Module Agent.
Record t := mk {
  id : Z;
  name : string;
  description : string;
  category : string;
  link : option string;
  ipfs_hash : option string;
  creator_wallet : option string;
  original_agent_id : option Z;
  fork_count : Z;
  is_premium : bool;
  created_at : Z
}.

Definition add_forks (n : Z) (a : t) : t :=
  mk (id a) (name a) (description a) (category a) (link a) (ipfs_hash a)
     (creator_wallet a) (original_agent_id a) (fork_count a + n)
     (is_premium a) (created_at a).
End Agent.

Module Tag.
Record t := mk {
  id : Z;
  name : string;
  created_at : Z
}.
End Tag.

Module AgentTag.
Record t := mk {
  agent_id : Z;
  tag_id : Z
}.
End AgentTag.

Module Rating.
Record t := mk {
  id : Z;
  agent_id : Z;
  wallet_address : option string;
  stars : Z;
  comment : option string;
  created_at : Z
}.
End Rating.

(** The database file: the rows of each table in insertion order and, for
    each [AUTOINCREMENT] key, the largest row id handed out so far. *)
Record store := mkStore {
  users : list User.t;
  agents : list Agent.t;
  tags : list Tag.t;
  agent_tags : list AgentTag.t;
  ratings : list Rating.t;
  seq_users : Z;
  seq_agents : Z;
  seq_ratings : Z
}.

Definition empty_store : store := mkStore [] [] [] [] [] 0 0 0.

(** The process: the [sessions] map and the database. *)
Record state := mkState {
  sessions : gmap string string;
  db : store
}.

Definition init : state := mkState ∅ empty_store.

(** ** The statements the handlers run *)

(** [INSERT OR REPLACE INTO users (wallet_address, last_login)
     VALUES (?, CURRENT_TIMESTAMP)]: a row that holds the same unique
    wallet address is deleted, then a new row is inserted; the columns the
    statement does not name take their defaults. *)
Definition insert_or_replace_user (w : string) (now : Z) (d : store) : store :=
  let kept :=
    filter (fun u => User.wallet_address u ≠ w) (users d) in
  let row :=
    User.mk (seq_users d + 1) w "creator" None None now now in
  mkStore (kept ++ [row]) (agents d) (tags d) (agent_tags d) (ratings d)
          (seq_users d + 1) (seq_agents d) (seq_ratings d).

(** [SELECT * FROM users WHERE wallet_address = ?] *)
Definition select_user (w : string) (d : store) : option User.t :=
  List.find (fun u => bool_decide (User.wallet_address u = w)) (users d).

(** [INSERT INTO agents (name, description, category, link
     [, original_agent_id]) VALUES (...)]; the result carries [this.lastID]. *)
Definition insert_agent (name description category link : string)
    (original : option Z) (now : Z) (d : store) : Z * store :=
  let lastID := seq_agents d + 1 in
  let row :=
    Agent.mk lastID name description category (Some link) None None
             original 0 false now in
  (lastID,
   mkStore (users d) (agents d ++ [row]) (tags d) (agent_tags d) (ratings d)
           (seq_users d) lastID (seq_ratings d)).

(** [UPDATE agents SET fork_count = fork_count + 1 WHERE id = ?] *)
Definition increment_fork_count (i : Z) (d : store) : store :=
  mkStore (users d)
          (map (fun a => if Agent.id a =? i then Agent.add_forks 1 a else a)
               (agents d))
          (tags d) (agent_tags d) (ratings d)
          (seq_users d) (seq_agents d) (seq_ratings d).

(** [SELECT * FROM agents WHERE id = ?] *)
Definition select_agent (i : Z) (d : store) : option Agent.t :=
  List.find (fun a => Agent.id a =? i) (agents d).

(** Does a stored rating row collide with a new row for
    [(agent_id, wallet)] under [UNIQUE(agent_id, wallet_address)]? A [NULL]
    wallet never collides. *)
Definition rating_conflict (agent_id : Z) (wallet : option string)
    (r : Rating.t) : bool :=
  match wallet, Rating.wallet_address r with
  | Some w, Some w' => (Rating.agent_id r =? agent_id) && String.eqb w' w
  | _, _ => false
  end.

(** [INSERT INTO ratings (agent_id, stars, comment) VALUES (?, ?, ?)], the
    statement of [POST /rate], under the table's [CHECK] and [UNIQUE]
    constraints: the wallet column is not named, so the new row holds
    [NULL] there. *)
Definition insert_rating (agent_id stars : Z) (comment : option string)
    (now : Z) (d : store) : SQL.result store :=
  if negb ((1 <=? stars) && (stars <=? 5)) then SQL.Err SQL.SQLITE_CONSTRAINT
  else if existsb (rating_conflict agent_id None) (ratings d)
  then SQL.Err SQL.SQLITE_CONSTRAINT
  else
    let row :=
      Rating.mk (seq_ratings d + 1) agent_id None stars comment now in
    SQL.Ok (mkStore (users d) (agents d) (tags d) (agent_tags d)
                    (ratings d ++ [row])
                    (seq_users d) (seq_agents d) (seq_ratings d + 1)).

(** ** The browse and detail queries *)

(** One row of the browse result: [a.*], then [u.wallet_address AS
    creator_wallet] (which replaces the agent's own column of that name in
    the row object), then the three aggregates. *)
Record browse_row := mkBrowseRow {
  agent : Agent.t;
  creator_wallet : option string;
  avg_rating : Q;
  rating_count : Z;
  tag_names : option string
}.

(** [l LEFT JOIN r ON on]: every match of a left row, or the left row once
    with [NULL] on the right when nothing matches. *)
Definition left_join {A B : Type} (on : A -> B -> bool)
    (l : list A) (r : list B) : list (A * option B) :=
  flat_map
    (fun a =>
       match List.filter (on a) r with
       | [] => [(a, None)]
       | ms => map (fun b => (a, Some b)) ms
       end) l.

Definition joined_row : Type :=
  Agent.t * option User.t * option Rating.t * option AgentTag.t * option Tag.t.

(** [agents a LEFT JOIN users u ... LEFT JOIN ratings r ... LEFT JOIN
    agent_tags at ... LEFT JOIN tags t ...], restricted to the agent [a].
    [id] is the primary key of [agents], so these rows are the group of [a]
    under [GROUP BY a.id]. *)
Definition joined (d : store) (a : Agent.t) : list joined_row :=
  let j1 :=
    left_join
      (fun (a : Agent.t) (u : User.t) =>
         match Agent.creator_wallet a with
         | Some w => String.eqb w (User.wallet_address u)
         | None => false
         end) [a] (users d) in
  let j2 :=
    left_join
      (fun '(a, _) (r : Rating.t) => Agent.id a =? Rating.agent_id r)
      j1 (ratings d) in
  let j3 :=
    left_join
      (fun '(a, _, _) (x : AgentTag.t) => Agent.id a =? AgentTag.agent_id x)
      j2 (agent_tags d) in
  left_join
    (fun '(_, _, _, x) (t : Tag.t) =>
       match x with
       | Some x => AgentTag.tag_id x =? Tag.id t
       | None => false
       end) j3 (tags d).

Definition sumZ (l : list Z) : Z := fold_right Z.add 0 l.

(** [COALESCE(AVG(x), 0)] over the non-[NULL] values [l], as an exact
    rational. *)
Definition coalesce_avg (l : list Z) : Q :=
  match l with
  | [] => 0%Q
  | _ => (inject_Z (sumZ l) / inject_Z (Z.of_nat (length l)))%Q
  end.

Fixpoint join_with (sep : string) (l : list string) : string :=
  match l with
  | [] => ""
  | [x] => x
  | x :: l' => (x ++ sep ++ join_with sep l')%string
  end.

(** [GROUP_CONCAT(x)] over the non-[NULL] values [l]: [NULL] when there is
    none. *)
Definition group_concat (l : list string) : option string :=
  match l with
  | [] => None
  | _ => Some (join_with "," l)
  end.

Definition group_stars (g : list joined_row) : list Z :=
  omap (fun '(_, _, r, _, _) => Rating.stars <$> r) g.

Definition group_rating_ids (g : list joined_row) : list Z :=
  omap (fun '(_, _, r, _, _) => Rating.id <$> r) g.

Definition group_tag_names (g : list joined_row) : list string :=
  omap (fun '(_, _, _, _, t) => Tag.name <$> t) g.

Definition group_creator (g : list joined_row) : option string :=
  match g with
  | (_, u, _, _, _) :: _ => User.wallet_address <$> u
  | [] => None
  end.

Definition browse_group (d : store) (a : Agent.t) : browse_row :=
  let g := joined d a in
  mkBrowseRow a
    (group_creator g)
    (coalesce_avg (group_stars g))
    (Z.of_nat (length (group_rating_ids g)))
    (group_concat (group_tag_names g)).

(** The [WHERE] clause assembled from [category] and [search]. *)
Definition where_clause (category search : option string) (a : Agent.t)
  : bool :=
  (if JS.truthy category && negb (String.eqb (JS.toString category) "all")
   then String.eqb (Agent.category a) (JS.toString category)
   else true)
  &&
  (if JS.truthy search
   then
     let pattern := ("%" ++ JS.toString search ++ "%")%string in
     SQL.like (Agent.name a) pattern || SQL.like (Agent.description a) pattern
   else true).

(** [fork_count * 0.7 + COALESCE(AVG(r.stars), 0) * rating_count * 0.3],
    with the two weights taken as the exact rationals 7/10 and 3/10. The
    engine computes the score in doubles, so two rows whose exact scores
    are equal or differ by less than a rounding error may come out of the
    engine in the other order; no property below speaks of the order under
    this sort mode. *)
Definition trending_score (r : browse_row) : Q :=
  (inject_Z (Agent.fork_count (agent r)) * (7 # 10)
   + avg_rating r * inject_Z (rating_count r) * (3 # 10))%Q.

(** [x] may come before [y] under the [ORDER BY] clause chosen by [sort]. *)
Definition order_clause (sort : option string) (x y : browse_row) : bool :=
  if bool_decide (sort = Some "rating") then
    negb (Qle_bool (avg_rating x) (avg_rating y))
    || (Qeq_bool (avg_rating x) (avg_rating y)
        && (rating_count y <=? rating_count x))
  else if bool_decide (sort = Some "forks") then
    Agent.fork_count (agent y) <=? Agent.fork_count (agent x)
  else if bool_decide (sort = Some "trending") then
    Qle_bool (trending_score y) (trending_score x)
  else
    Agent.created_at (agent y) <=? Agent.created_at (agent x).

Definition order_rel (sort : option string) : relation browse_row :=
  fun x y => order_clause sort x y = true.

#[global] Instance order_rel_dec (sort : option string) :
  RelDecision (order_rel sort).
Proof. intros x y. unfold order_rel. apply _. Defined.

(** The query of [GET /browse]. SQL leaves open the order of rows that the
    [ORDER BY] clause does not separate: here they come out as the merge
    sort leaves them, in the engine as its sorter does (in id order). No
    property below fixes the order of such rows. *)
Definition select_browse (category search sort : option string) (d : store)
  : list browse_row :=
  merge_sort (order_rel sort)
    (map (browse_group d)
         (List.filter (where_clause category search) (agents d))).

(** One row of the detail query of [GET /agent/:id]. *)
Record detail_row := mkDetailRow {
  detail_agent : Agent.t;
  detail_avg_rating : Q;
  detail_rating_count : Z
}.

(** [SELECT a.*, COALESCE(AVG(r.stars), 0), COUNT(r.id) FROM agents a
     LEFT JOIN ratings r ON a.id = r.agent_id WHERE a.id = ? GROUP BY a.id] *)
Definition select_detail (i : Z) (d : store) : option detail_row :=
  match select_agent i d with
  | None => None
  | Some a =>
      let g :=
        left_join (fun (a : Agent.t) (r : Rating.t) =>
                     Agent.id a =? Rating.agent_id r) [a] (ratings d) in
      let stars := omap (fun '(_, r) => Rating.stars <$> r) g in
      let ids := omap (fun '(_, r) => Rating.id <$> r) g in
      Some (mkDetailRow a (coalesce_avg stars) (Z.of_nat (length ids)))
  end.

(** ** Requests, responses and handlers *)

(** The body of [POST /submit]. *)
Record submission := mkSubmission {
  name : option string;
  description : option string;
  category : option string;
  link : option string;
  ipfs_hash : option string;
  tags_field : option string;
  is_premium : option string;
  original_agent_id : option string
}.

(** What [GET /fork/:id] pre-fills the submit form with. *)
Record forkData := mkForkData {
  fork_name : string;
  fork_description : string;
  fork_category : string;
  fork_link : option string;
  fork_original_agent_id : Z
}.

Inductive body :=
| LoginBody (sessionId walletAddress : string)
| SuccessBody
| ErrorBody (error : string)
| ProfileBody (user : option User.t) (walletAddress : string)
| ErrorPage (heading paragraph : string)
| BrowsePage (rows : list browse_row)
| AgentPage (row : detail_row).

Inductive response :=
| Redirect (location : string)
| RedirectSubmit (draft : forkData)
| Send (status : Z) (b : body).

(** [checkSession]: the value [req.user.walletAddress] takes, if any. *)
Definition checkSession (sessionId : option string) (st : state)
  : option string :=
  if JS.truthy sessionId then sessions st !! JS.toString sessionId else None.

(** [POST /api/login]; [fresh] is what [generateSessionId()] returns. *)
Definition post_login (walletAddress : option string) (now : Z)
    (fresh : string) (st : state) : state * response :=
  if negb (JS.truthy walletAddress) then
    (st, Send 400 (ErrorBody "Wallet address required"))
  else
    let w := JS.toString walletAddress in
    (mkState (<[fresh := w]> (sessions st))
             (insert_or_replace_user w now (db st)),
     Send 200 (LoginBody fresh w)).

(** [POST /api/logout] *)
Definition post_logout (sessionId : option string) (st : state)
  : state * response :=
  (if JS.truthy sessionId
   then mkState (delete (JS.toString sessionId) (sessions st)) (db st)
   else st,
   Send 200 SuccessBody).

(** [GET /api/profile] *)
Definition get_profile (user : option string) (st : state) : response :=
  match user with
  | None => Send 401 (ErrorBody "Not authenticated")
  | Some w => Send 200 (ProfileBody (select_user w (db st)) w)
  end.

(** The two checks of [POST /submit]. *)
Definition fields_present (b : submission) : bool :=
  JS.truthy (name b) && JS.truthy (description b)
  && JS.truthy (category b) && JS.truthy (link b).

Definition link_well_formed (b : submission) : bool :=
  RegExp.test urlPattern (JS.toString (link b)).

Definition valid_submission (b : submission) : bool :=
  fields_present b && link_well_formed b.

(** [original_agent_id ? parseInt(original_agent_id) : null] *)
Definition originalAgentId (b : submission) : option JS.number :=
  if JS.truthy (original_agent_id b)
  then Some (JS.parseInt (original_agent_id b))
  else None.

(** The lineage parameter of the insert: present exactly when
    [originalAgentId] is truthy. *)
Definition lineage (b : submission) : option Z :=
  match originalAgentId b with
  | Some (JS.Num z) => if JS.truthy_number (JS.Num z) then Some z else None
  | _ => None
  end.

(** The database work of an accepted submission: the insert and, in its
    callback, the fork-count update. Returns [this.lastID] and the store. *)
Definition submit_agent (b : submission) (now : Z) (d : store) : Z * store :=
  let '(lastID, d1) :=
    insert_agent (JS.toString (name b)) (JS.toString (description b))
                 (JS.toString (category b)) (JS.toString (link b))
                 (lineage b) now d in
  match lineage b with
  | Some i => (lastID, increment_fork_count i d1)
  | None => (lastID, d1)
  end.

(** [POST /submit]; [user] is [req.user.walletAddress] when a session was
    resolved. The handler computes [creatorWallet] from it and reads
    [ipfs_hash], [tags] and [is_premium] from the body, and passes none of
    them to the insert. *)
Definition post_submit (user : option string) (b : submission) (now : Z)
    (st : state) : state * response :=
  let creatorWallet := user in
  if negb (fields_present b) then
    (st, Send 400 (ErrorPage "Submission Error"
       "All fields are required. Please go back and fill in all information."))
  else if negb (link_well_formed b) then
    (st, Send 400 (ErrorPage "Submission Error"
       "Please provide a valid URL for the agent link."))
  else
    (mkState (sessions st) (snd (submit_agent b now (db st))),
     Redirect "/browse").

(** [POST /rate] *)
Definition rating_rejected (agent_id stars : option string) : bool :=
  let agentIdInt := JS.parseInt agent_id in
  let starsInt := JS.parseInt stars in
  JS.isNaN agentIdInt || JS.isNaN starsInt
  || JS.lt starsInt 1 || JS.gt starsInt 5.

Definition post_rate (agent_id stars comment : option string) (now : Z)
    (st : state) : state * response :=
  let back := Redirect ("/agent/" ++ JS.toString agent_id)%string in
  if rating_rejected agent_id stars then (st, back)
  else
    match JS.parseInt agent_id, JS.parseInt stars with
    | JS.Num agentIdInt, JS.Num starsInt =>
        let comment' := if JS.truthy comment then comment else None in
        match insert_rating agentIdInt starsInt comment' now (db st) with
        | SQL.Ok d' => (mkState (sessions st) d', back)
        | SQL.Err _ => (st, back)
        end
    | _, _ => (st, back)
    end.

(** [GET /browse] *)
Definition get_browse (category search sort : option string) (st : state)
  : response :=
  Send 200 (BrowsePage (select_browse category search sort (db st))).

(** [GET /fork/:id] *)
Definition get_fork (id : string) (st : state) : response :=
  match JS.parseInt (Some id) with
  | JS.NaN => Redirect "/browse"
  | JS.Num agentId =>
      match select_agent agentId (db st) with
      | None => Redirect "/browse"
      | Some row =>
          RedirectSubmit
            (mkForkData ("Fork of " ++ Agent.name row)%string
                        (Agent.description row)
                        (Agent.category row) (Agent.link row) (Agent.id row))
      end
  end.

(** [GET /agent/:id] *)
Definition get_agent (id : string) (st : state) : response :=
  match JS.parseInt (Some id) with
  | JS.NaN =>
      Send 400 (ErrorPage "Invalid Agent ID"
                          "The agent ID must be a valid number.")
  | JS.Num agentId =>
      match select_detail agentId (db st) with
      | None =>
          Send 404 (ErrorPage "Agent Not Found"
                              "The requested AI agent could not be found.")
      | Some row => Send 200 (AgentPage row)
      end
  end.

Inductive request :=
| PostLogin (walletAddress signature : option string)
| PostLogout
| GetProfile
| GetBrowse (category search sort : option string)
| GetFork (id : string)
| GetAgent (id : string)
| PostRate (agent_id stars comment : option string)
| PostSubmit (b : submission).

(** What a request finds around it: its [X-Session-Id] header, the clock,
    and the next random session id. *)
Record env := mkEnv {
  x_session_id : option string;
  now : Z;
  fresh : string
}.

Definition handle (e : env) (r : request) (st : state) : state * response :=
  let user := checkSession (x_session_id e) st in
  match r with
  | PostLogin w _ => post_login w (now e) (fresh e) st
  | PostLogout => post_logout (x_session_id e) st
  | GetProfile => (st, get_profile user st)
  | GetBrowse c s o => (st, get_browse c s o st)
  | GetFork i => (st, get_fork i st)
  | GetAgent i => (st, get_agent i st)
  | PostRate a s c => post_rate a s c (now e) st
  | PostSubmit b => post_submit user b (now e) st
  end.

(** The states the server can be in: those a sequence of requests produces
    from the empty database. *)
Inductive reachable : state -> Prop :=
| reachable_init : reachable init
| reachable_step e r st :
    reachable st -> reachable (fst (handle e r st)).

(** Running a list of requests, oldest first. *)
Fixpoint run (rs : list (env * request)) (st : state) : state :=
  match rs with
  | [] => st
  | (e, r) :: rs' => run rs' (fst (handle e r st))
  end.

(** ** Notions used in the statements *)

(** What [INTEGER PRIMARY KEY AUTOINCREMENT] guarantees of [agents]: the ids
    are distinct, start at 1 and never exceed the recorded sequence. *)
Definition wf_agents (d : store) : Prop :=
  0 <= seq_agents d /\
  NoDup (map Agent.id (agents d)) /\
  Forall (fun a => 1 <= Agent.id a <= seq_agents d) (agents d).

(** [n] runs of the fork-count update for agent [i], seen from one row. *)
Definition bump (i n : Z) (a : Agent.t) : Agent.t :=
  if Agent.id a =? i then Agent.add_forks n a else a.

(** The row an accepted submission inserts. *)
Definition submitted_row (b : submission) (now : Z) (d : store) : Agent.t :=
  Agent.mk (seq_agents d + 1) (JS.toString (name b))
           (JS.toString (description b)) (JS.toString (category b))
           (Some (JS.toString (link b))) None None (lineage b) 0 false now.

(** A logged-in creator sends a premium agent with a content hash. *)
Definition creator_session : state :=
  fst (handle (mkEnv None 100 "s1")
              (PostLogin (Some "0xabc") (Some "mock-signature")) init).

(** The body of that request. *)
Definition premium_submission : submission :=
  mkSubmission (Some "Bot1") (Some "d") (Some "Other") (Some "http://x.com")
               (Some "QmContentHash") (Some "nlp,chat") (Some "on") None.

(** The rows a wallet holds for an agent. *)
Definition ratings_of (agent_id : Z) (wallet : option string) (d : store)
  : list Rating.t :=
  List.filter
    (fun r => (Rating.agent_id r =? agent_id)
              && bool_decide (Rating.wallet_address r = wallet))
    (ratings d).

(** Agent 1 exists and wallet 0xabc holds session s1. *)
Definition rater_session : state :=
  run [(mkEnv None 100 "s0",
        PostSubmit (mkSubmission (Some "Bot1") (Some "d") (Some "Other")
                                 (Some "http://x.com") None None None None));
       (mkEnv None 101 "s1",
        PostLogin (Some "0xabc") (Some "mock-signature"))] init.

(** The claim's reading of an integer value: an optionally signed, non-empty
    run of decimal digits and nothing else. *)
Definition denotes_integer (s : string) : bool :=
  let unsigned :=
    match JS.chars s with
    | "-"%char :: r => r
    | "+"%char :: r => r
    | r => r
    end in
  negb (Nat.eqb (length unsigned) 0)
  && forallb (fun c => (48 <=? JS.code c) && (JS.code c <=? 57)) unsigned.

(** The number of rows of [l] whose lineage pointer is [i]. *)
Definition children (i : Z) (l : list Agent.t) : Z :=
  Z.of_nat
    (length
       (List.filter
          (fun b => bool_decide (Agent.original_agent_id b = Some i)) l)).

(** Each fork count equals the number of rows pointing at the agent. *)
Definition fork_invariant (d : store) : Prop :=
  Forall (fun a => Agent.fork_count a = children (Agent.id a) (agents d))
         (agents d).

(** Every lineage pointer stays within the ids handed out so far. *)
Definition lineage_closed (d : store) : Prop :=
  Forall (fun a => forall j, Agent.original_agent_id a = Some j ->
                             1 <= j <= seq_agents d) (agents d).

(** A request is guarded when the lineage pointer of a submission, if there
    is one, names an agent of the table, as the draft of [GET /fork/:id]
    does. *)
Definition guarded (st : state) (r : request) : Prop :=
  match r with
  | PostSubmit b =>
      match lineage b with
      | Some i => is_Some (select_agent i (db st))
      | None => True
      end
  | _ => True
  end.

(** The states reached through guarded requests only. *)
Inductive reachable_guarded : state -> Prop :=
| guarded_init : reachable_guarded init
| guarded_step e r st :
    reachable_guarded st -> guarded st r ->
    reachable_guarded (fst (handle e r st)).

(** The invariant that guarded requests preserve. *)
Definition fork_consistent (d : store) : Prop :=
  wf_agents d /\ lineage_closed d /\ fork_invariant d.

(** [s] starts [t], character for character. *)
Fixpoint prefix_chars (s t : list ascii) : bool :=
  match s, t with
  | [], _ => true
  | _ :: _, [] => false
  | c :: s', d :: t' => Ascii.eqb c d && prefix_chars s' t'
  end.

(** [s] is a prefix of some suffix of [t]. *)
Fixpoint occurs_chars (s t : list ascii) : bool :=
  prefix_chars s t ||
  match t with
  | [] => false
  | _ :: t' => occurs_chars s t'
  end.

(** The substring test of the browse claim, on strings. *)
Definition substring (s t : string) : bool :=
  occurs_chars (JS.chars s) (JS.chars t).

(** [s] occurs in [t] up to the case of ASCII letters. *)
Definition occurs_folded (s t : string) : Prop :=
  exists pre mid post : list ascii,
    JS.chars t = pre ++ mid ++ post /\
    map SQL.fold_case mid = map SQL.fold_case (JS.chars s).

(** A search text in which [LIKE] finds no wild card. *)
Definition wildcard_free (s : string) : Prop :=
  Forall (fun c => c <> "%"%char /\ c <> "_"%char) (JS.chars s).

(** A text without the code unit 0, which [LIKE] reads to its end. *)
Definition nul_free (s : string) : Prop :=
  Forall (fun c => c <> "000"%char) (JS.chars s).

(** A search text that a query string can carry as [1%00zzz]: the digit 1,
    the code unit 0, and three letters. *)
Definition search_with_nul : string :=
  String "1" (String "000" "zzz").

(** One agent, named Bot1 and described as d. *)
Definition one_agent : store :=
  db (fst (post_submit None
             (mkSubmission (Some "Bot1") (Some "d") (Some "Other")
                           (Some "http://x.com") None None None None)
             100 init)).

(** The rating rows that reference agent [i]. *)
Definition ratings_for (i : Z) (d : store) : list Rating.t :=
  List.filter (fun r => i =? Rating.agent_id r) (ratings d).

(** The names of the tags attached to agent [i], one per junction row. *)
Definition tags_for (i : Z) (d : store) : list string :=
  flat_map
    (fun x => map Tag.name
                  (List.filter (fun t => AgentTag.tag_id x =? Tag.id t) (tags d)))
    (List.filter (fun x => i =? AgentTag.agent_id x) (agent_tags d)).

(** A joined row of an agent without creator and without tags. *)
Definition untagged_row (a : Agent.t) (r : option Rating.t) : joined_row :=
  (a, None, r, None, None).

(** The agent row of the aggregate examples. *)
Definition bot1 : Agent.t :=
  Agent.mk 1 "Bot1" "d" "Other" (Some "http://x.com") None None None 0 false 100.

(** Agent 1 with one rating and two tags. *)
Definition rated_once_tagged_twice : store :=
  mkStore [] [bot1]
          [Tag.mk 1 "nlp" 100; Tag.mk 2 "chat" 100]
          [AgentTag.mk 1 1; AgentTag.mk 1 2]
          [Rating.mk 1 1 None 5 None 100]
          0 1 1.

(** Agent 1 with two ratings and one tag. *)
Definition rated_twice_tagged_once : store :=
  mkStore [] [bot1]
          [Tag.mk 1 "nlp" 100]
          [AgentTag.mk 1 1]
          [Rating.mk 1 1 None 5 None 100; Rating.mk 2 1 None 4 None 100]
          0 1 2.

(** ** Rendering helpers and the remaining glue of [server.js] *)

(** [s.replace(/c/g, by)]: every occurrence of the character [c] becomes the
    text [by]. *)
Definition replaceAll (c : ascii) (by_ : string) (s : list ascii)
  : list ascii :=
  flat_map (fun d => if Ascii.eqb d c then JS.chars by_ else [d]) s.

(** [escapeHtml]: the five replacements, in the order of the source. *)
Definition escapeHtml (unsafe : string) : string :=
  string_of_list_ascii
    (replaceAll "'" "&#039;"
      (replaceAll "034" "&quot;"
        (replaceAll ">" "&gt;"
          (replaceAll "<" "&lt;"
            (replaceAll "&" "&amp;" (JS.chars unsafe)))))).

(** [s.slice(0, n)] and [s.slice(-n)] for a non-negative [n]. *)
Definition slice_head (n : nat) (s : list ascii) : list ascii := take n s.

Definition slice_tail (n : nat) (s : list ascii) : list ascii :=
  drop (length s - n) s.

(** [formatWalletAddress] of [server.js]; [None] is a [null] address. *)
Definition formatWalletAddress (address : option string) : string :=
  if negb (JS.truthy address) then "Anonymous"
  else
    let a := JS.chars (JS.toString address) in
    string_of_list_ascii (slice_head 6 a ++ JS.chars "..." ++ slice_tail 4 a).

(** The [shortDescription] of a browse card. *)
Definition shortDescription (description : string) : string :=
  if (100 <? Z.of_nat (String.length description))
  then string_of_list_ascii
         (take 100 (JS.chars description) ++ JS.chars "...")
  else description.

(** [s.split(c)] for a one-character separator. *)
Fixpoint split_chars (c : ascii) (s : list ascii) : list (list ascii) :=
  match s with
  | [] => [[]]
  | d :: s' =>
      if Ascii.eqb d c then [] :: split_chars c s'
      else
        match split_chars c s' with
        | piece :: rest => (d :: piece) :: rest
        | [] => [[d]]
        end
  end.

Definition split (c : ascii) (s : string) : list string :=
  map string_of_list_ascii (split_chars c (JS.chars s)).

(** The tag spans of a browse card, one entry per span, each entry the
    escaped text the span holds; a [NULL] or empty [tags] gives none. *)
Definition tag_spans (tags : option string) : list string :=
  if JS.truthy tags then map escapeHtml (split "," (JS.toString tags))
  else [].

(** One star of [generateStarDisplay]. *)
Inductive star :=
| FilledStar
| HalfStar
| EmptyStar
| InteractiveStar (data_rating : Z).

(** [rating % 1]: the remainder has the sign of [rating], so the integer
    taken away is [rating] rounded towards zero. *)
Definition fractional_part (rating : Q) : Q :=
  if Qle_bool 0 rating
  then (rating - inject_Z (Qfloor rating))%Q
  else (rating - inject_Z (- Qfloor (- rating)))%Q.

(** [generateStarDisplay(rating, interactive)]: the stars in order and,
    when it is shown, the number of the [rating-value] span (the digits
    [toFixed(1)] prints for it are not modelled). A finite number is the
    rational it denotes; a loop bound below zero runs no iteration. *)
Definition generateStarDisplay (rating : Q) (interactive : bool)
  : list star * option Q :=
  let fullStars := Qfloor rating in
  let hasHalfStar := Qle_bool (1 # 2) (fractional_part rating) in
  let emptyStars := 5 - fullStars - (if hasHalfStar then 1 else 0) in
  if interactive then
    (map (fun i => InteractiveStar (Z.of_nat i + 1)) (seq 0 5), None)
  else
    (replicate (Z.to_nat fullStars) FilledStar
     ++ (if hasHalfStar then [HalfStar] else [])
     ++ replicate (Z.to_nat emptyStars) EmptyStar,
     if negb (Qle_bool rating 0) then Some rating else None).

(** The stars of a browse card: [avgRating] is [parseFloat(agent.avg_rating)
    || 0], which is the aggregate itself. *)
Definition card_stars (r : browse_row) : list star * option Q :=
  generateStarDisplay (avg_rating r) false.

(** The decimal digits of a non-negative integer, most significant first;
    [fuel] bounds the number of digits. *)
Fixpoint decimal_digits (fuel : nat) (n : Z) : list Z :=
  match fuel with
  | O => []
  | S fuel' =>
      if n <? 10 then [n]
      else decimal_digits fuel' (n / 10) ++ [n mod 10]
  end.

Definition digit_char (d : Z) : ascii := ascii_of_nat (Z.to_nat (d + 48)).

(** [String(n)] for an integer [n] below 10^21 in magnitude, as a template
    literal prints a row id: the decimal digits of [n]. These are the
    digits the language prints for every [n] up to 2^53 in magnitude; for a
    larger double it prints the shortest digits that read back as the same
    double, padded with zeros. *)
Definition numberToString (n : Z) : string :=
  let digits m :=
    map digit_char (decimal_digits (S (Z.to_nat (Z.log2 m))) m) in
  string_of_list_ascii
    (if n <? 0 then "-"%char :: digits (- n) else digits n).

(** The query parameters of the redirect of [GET /fork/:id], before
    percent-encoding: the fields the submit form is pre-filled with. A
    [NULL] link is printed as the text null. *)
Definition fork_query (draft : forkData) : submission :=
  mkSubmission (Some (fork_name draft)) (Some (fork_description draft))
               (Some (fork_category draft))
               (Some (match fork_link draft with
                      | Some l => l
                      | None => "null"
                      end))
               None None None
               (Some (numberToString (fork_original_agent_id draft))).

(** The link of a browse card or of the fork button to the agent, and the
    hidden [agent_id] field of the rating form. *)
Definition agent_href (a : Agent.t) : string :=
  ("/agent/" ++ numberToString (Agent.id a))%string.

(** ** Notions used in the further statements *)

(** An agent row that went through the checks of [POST /submit]. *)
Definition agent_checked (a : Agent.t) : Prop :=
  Agent.name a <> "" /\ Agent.description a <> "" /\
  Agent.category a <> "" /\
  exists l, Agent.link a = Some l /\ l <> "" /\
            RegExp.test urlPattern l = true.

(** The characters a link may consist of: digits, letters, the underscore,
    the space, and [- . / :]. *)
Definition link_alphabet : RegExp.class :=
  [(48, 57); (97, 122); (65, 90); (95, 95); (32, 32); (45, 47); (58, 58)].

Definition link_char (c : ascii) : bool := RegExp.in_class link_alphabet c.

(** Every range of the class [k] lies within a range of [allowed]. *)
Definition class_within (allowed k : RegExp.class) : bool :=
  forallb
    (fun '(lo, hi) =>
       existsb (fun '(lo', hi') => (lo' <=? lo) && (hi <=? hi')) allowed)
    k.

(** Every class of the expression lies within [allowed]. *)
Fixpoint classes_within (allowed : RegExp.class) (r : RegExp.t) : bool :=
  match r with
  | RegExp.Void | RegExp.Eps => true
  | RegExp.Class k => class_within allowed k
  | RegExp.Cat r1 r2 | RegExp.Alt r1 r2 =>
      classes_within allowed r1 && classes_within allowed r2
  | RegExp.Star r1 => classes_within allowed r1
  end.

(** What the schema and the validation of [POST /rate] guarantee of the
    ratings table. *)
Definition wf_ratings (d : store) : Prop :=
  Forall (fun r => 1 <= Rating.stars r <= 5
                   /\ Rating.wallet_address r = None) (ratings d).

(** The wallets of the users table. *)
Definition wallets (d : store) : list string :=
  map User.wallet_address (users d).

(** The integers [first], [first + 1], ... ([count] of them). *)
Fixpoint seqZ (first : Z) (count : nat) : list Z :=
  match count with
  | O => []
  | S count' => first :: seqZ (first + 1) count'
  end.

(** An agent row with its fork count set aside. *)
Definition without_fork_count (a : Agent.t) : Agent.t :=
  Agent.mk (Agent.id a) (Agent.name a) (Agent.description a)
           (Agent.category a) (Agent.link a) (Agent.ipfs_hash a)
           (Agent.creator_wallet a) (Agent.original_agent_id a) 0
           (Agent.is_premium a) (Agent.created_at a).

(** The special characters of HTML that [escapeHtml] replaces, bar [&]. *)
Definition html_special (c : ascii) : bool :=
  Ascii.eqb c "<" || Ascii.eqb c ">" || Ascii.eqb c "034" || Ascii.eqb c "'".

(** ** Properties *)

Example parseInt_samples :
  JS.parseInt (Some "42") = JS.Num 42 /\
  JS.parseInt (Some "  -7xyz") = JS.Num (-7) /\
  JS.parseInt (Some "3.5") = JS.Num 3 /\
  JS.parseInt (Some "0x1A") = JS.Num 26 /\
  JS.parseInt (Some "abc") = JS.NaN /\
  JS.parseInt (Some "") = JS.NaN /\
  JS.parseInt None = JS.NaN /\
  JS.parseInt (Some "0") = JS.Num 0.
Proof. repeat split; reflexivity. Qed.

Example urlPattern_samples :
  RegExp.test urlPattern "http://x.com" = true /\
  RegExp.test urlPattern "https://my-agent.example.org/a/b.html" = true /\
  RegExp.test urlPattern "x.com" = true /\
  RegExp.test urlPattern "not a url" = false /\
  RegExp.test urlPattern "ftp://x.com" = false /\
  RegExp.test urlPattern "http://x" = false.
Proof. repeat split; vm_compute; reflexivity. Qed.

(** *** JavaScript primitives *)

Lemma truthy_false (v : option string) :
  JS.truthy v = false <-> v = None \/ v = Some "".
Proof.
  destruct v as [s|]; simpl.
  - rewrite negb_false_iff, String.eqb_eq. split.
    + intros ->. now right.
    + intros [H|H]; congruence.
  - split; auto.
Qed.

Lemma parseInt_falsy_field (v : option string) :
  JS.truthy v = false -> JS.parseInt v = JS.NaN.
Proof.
  rewrite truthy_false. intros [-> | ->]; reflexivity.
Qed.

(** The lineage parameter is absent exactly in the four ways a field can
    fail to give a truthy integer. *)
Lemma lineage_None (b : submission) :
  lineage b = None <->
  original_agent_id b = None \/ original_agent_id b = Some ""
  \/ JS.parseInt (original_agent_id b) = JS.NaN
  \/ JS.parseInt (original_agent_id b) = JS.Num 0.
Proof.
  unfold lineage, originalAgentId.
  destruct (JS.truthy (original_agent_id b)) eqn:Ht.
  - destruct (JS.parseInt (original_agent_id b)) as [|z] eqn:Hp.
    + split; auto.
    + simpl. destruct (Z.eqb_spec z 0) as [->|Hz]; simpl.
      * split; auto.
      * split; [discriminate|].
        intros [H|[H|[H|H]]]; try discriminate.
        -- rewrite H in Ht. discriminate.
        -- rewrite H in Ht. discriminate.
        -- congruence.
  - apply truthy_false in Ht. split; [|reflexivity].
    intros _. destruct Ht; auto.
Qed.

Lemma lineage_Some (b : submission) (i : Z) :
  JS.parseInt (original_agent_id b) = JS.Num i -> i <> 0 ->
  lineage b = Some i.
Proof.
  intros Hp Hi. unfold lineage, originalAgentId.
  destruct (JS.truthy (original_agent_id b)) eqn:Ht.
  - rewrite Hp. simpl. destruct (Z.eqb_spec i 0); simpl; congruence.
  - apply parseInt_falsy_field in Ht. congruence.
Qed.

(** *** The derivative matcher decides the language of the expression *)

Lemma regexp_eqb_eq (r1 r2 : RegExp.t) : RegExp.eqb r1 r2 = true -> r1 = r2.
Proof.
  revert r2. induction r1 as [| |k|a IHa b IHb|a IHa b IHb|a IHa];
    intros [| |k'|a' b'|a' b'|a']; simpl; try discriminate; try reflexivity.
  - unfold RegExp.class_eqb. intros H. apply bool_decide_eq_true in H.
    by subst.
  - intros H. apply andb_true_iff in H as [H1 H2].
    by rewrite (IHa _ H1), (IHb _ H2).
  - intros H. apply andb_true_iff in H as [H1 H2].
    by rewrite (IHa _ H1), (IHb _ H2).
  - intros H. by rewrite (IHa _ H).
Qed.

Lemma is_alternative_sound (r alts : RegExp.t) (s : list ascii) :
  RegExp.is_alternative r alts = true -> matches r s -> matches alts s.
Proof.
  induction alts as [| |k|a IHa b IHb|a IHa b IHb|a IHa]; simpl;
    rewrite ?orb_false_r; intros H Hm;
    try (apply regexp_eqb_eq in H; by subst).
  apply orb_true_iff in H as [H|H].
  - apply regexp_eqb_eq in H. by subst.
  - apply orb_true_iff in H as [H|H].
    + apply matches_alt_l. by apply IHa.
    + apply matches_alt_r. by apply IHb.
Qed.

Lemma matches_void (s : list ascii) : ~ matches RegExp.Void s.
Proof. inversion 1. Qed.

Lemma matches_eps_inv (s : list ascii) : matches RegExp.Eps s -> s = [].
Proof. by inversion 1. Qed.

Lemma matches_cat_inv (r1 r2 : RegExp.t) (s : list ascii) :
  matches (RegExp.Cat r1 r2) s ->
  exists s1 s2, s = s1 ++ s2 /\ matches r1 s1 /\ matches r2 s2.
Proof. inversion 1; subst. eauto. Qed.

Lemma matches_alt_inv (r1 r2 : RegExp.t) (s : list ascii) :
  matches (RegExp.Alt r1 r2) s -> matches r1 s \/ matches r2 s.
Proof. inversion 1; subst; auto. Qed.

Lemma cat_matches (r1 r2 : RegExp.t) (s : list ascii) :
  matches (RegExp.cat r1 r2) s <-> matches (RegExp.Cat r1 r2) s.
Proof.
  split.
  - intros H.
    assert (Hl : forall r, matches r s -> matches (RegExp.Cat RegExp.Eps r) s).
    { intros r Hr. apply (matches_cat _ _ [] s); [constructor|exact Hr]. }
    assert (Hr : forall r, matches r s -> matches (RegExp.Cat r RegExp.Eps) s).
    { intros r Hm. rewrite <- (app_nil_r s).
      apply matches_cat; [exact Hm|constructor]. }
    destruct r1, r2; simpl in H; auto; by apply matches_void in H.
  - intros H. apply matches_cat_inv in H as (s1 & s2 & -> & H1 & H2).
    destruct r1, r2; simpl;
      try (by apply matches_void in H1); try (by apply matches_void in H2);
      try (apply matches_eps_inv in H1; subst s1; simpl; exact H2);
      try (apply matches_eps_inv in H2; subst s2; rewrite app_nil_r; exact H1);
      by apply matches_cat.
Qed.

Lemma alt_matches (r1 r2 : RegExp.t) (s : list ascii) :
  matches (RegExp.alt r1 r2) s <-> matches r1 s \/ matches r2 s.
Proof.
  revert r2.
  assert (Hbase : forall r1 r2,
    matches (match r2 with
             | RegExp.Void => r1
             | _ => if RegExp.is_alternative r1 r2 then r2
                    else RegExp.Alt r1 r2
             end) s <-> matches r1 s \/ matches r2 s).
  { intros a b. split.
    - intros H. destruct b; try (by left);
        (destruct (RegExp.is_alternative a _);
         [by right | by apply matches_alt_inv in H]).
    - intros [H|H].
      + destruct b; try exact H;
          (destruct (RegExp.is_alternative a _) eqn:E;
           [by eapply is_alternative_sound | by apply matches_alt_l]).
      + destruct b; try (by apply matches_void in H);
          (destruct (RegExp.is_alternative a _);
           [exact H | by apply matches_alt_r]). }
  induction r1 as [| |k|a IHa b IHb|a IHa b IHb|a IHa]; intros r2;
    try apply Hbase.
  - simpl. split; [by right|]. intros [H|H]; [by apply matches_void in H|exact H].
  - simpl. rewrite IHa, IHb. split.
    + intros [H|[H|H]]; [left; by apply matches_alt_l
                        |left; by apply matches_alt_r|by right].
    + intros [H|H]; [|by right; right].
      apply matches_alt_inv in H as [H|H]; [by left|by right; left].
Qed.

Lemma nullable_matches (r : RegExp.t) :
  RegExp.nullable r = true <-> matches r [].
Proof.
  induction r as [| |k|a IHa b IHb|a IHa b IHb|a IHa]; simpl.
  - split; [discriminate|]. intros H. by apply matches_void in H.
  - split; [constructor|reflexivity].
  - split; [discriminate|]. inversion 1.
  - rewrite andb_true_iff, IHa, IHb. split.
    + intros [H1 H2]. by apply (matches_cat _ _ [] []).
    + intros H. apply matches_cat_inv in H as (s1 & s2 & E & H1 & H2).
      symmetry in E. apply app_eq_nil in E as [-> ->]. by split.
  - rewrite orb_true_iff, IHa, IHb. split.
    + intros [H|H]; [by apply matches_alt_l|by apply matches_alt_r].
    + apply matches_alt_inv.
  - split; [constructor|reflexivity].
Qed.

Lemma matches_star_cons_inv (r : RegExp.t) (c : ascii) (s : list ascii) :
  matches (RegExp.Star r) (c :: s) ->
  exists s1 s2, s = s1 ++ s2 /\ matches r (c :: s1)
                /\ matches (RegExp.Star r) s2.
Proof.
  intros H. remember (RegExp.Star r) as e eqn:He.
  remember (c :: s) as w eqn:Hw. revert c s Hw.
  induction H as [| | | | | |r' s1 s2 H1 _ H2 IH2]; intros c' s' Hw;
    try discriminate.
  injection He as ->. destruct s1 as [|d s1].
  - simpl in Hw. by apply IH2.
  - simpl in Hw. injection Hw as -> <-. by exists s1, s2.
Qed.

Lemma deriv_matches (c : ascii) (r : RegExp.t) (s : list ascii) :
  matches (RegExp.deriv c r) s <-> matches r (c :: s).
Proof.
  revert s. induction r as [| |k|a IHa b IHb|a IHa b IHb|a IHa]; intros s;
    simpl.
  - split; intros H; by apply matches_void in H.
  - split; intros H; [by apply matches_void in H|inversion H].
  - destruct (RegExp.in_class k c) eqn:E.
    + split.
      * intros H. apply matches_eps_inv in H. subst. by constructor.
      * inversion 1; subst. constructor.
    + split; [intros H; by apply matches_void in H|].
      inversion 1; subst. congruence.
  - assert (Hcat : matches (RegExp.cat (RegExp.deriv c a) b) s <->
                   exists s1 s2, s = s1 ++ s2 /\ matches a (c :: s1)
                                 /\ matches b s2).
    { rewrite cat_matches. split.
      - intros H. apply matches_cat_inv in H as (s1 & s2 & -> & H1 & H2).
        exists s1, s2. by rewrite <- IHa.
      - intros (s1 & s2 & -> & H1 & H2). apply matches_cat; [|exact H2].
        by apply IHa. }
    destruct (RegExp.nullable a) eqn:Hn.
    + rewrite alt_matches, Hcat, IHb. split.
      * intros [(s1 & s2 & -> & H1 & H2)|H].
        -- by apply (matches_cat _ _ (c :: s1) s2).
        -- apply (matches_cat _ _ [] (c :: s)); [|exact H].
           by apply nullable_matches.
      * intros H. apply matches_cat_inv in H as (s1 & s2 & E & H1 & H2).
        destruct s1 as [|d s1]; simpl in E.
        -- right. by subst s2.
        -- left. injection E as -> ->. by exists s1, s2.
    + rewrite Hcat. split.
      * intros (s1 & s2 & -> & H1 & H2).
        by apply (matches_cat _ _ (c :: s1) s2).
      * intros H. apply matches_cat_inv in H as (s1 & s2 & E & H1 & H2).
        destruct s1 as [|d s1]; simpl in E.
        -- apply nullable_matches in H1. congruence.
        -- injection E as -> ->. by exists s1, s2.
  - rewrite alt_matches, IHa, IHb. split.
    + intros [H|H]; [by apply matches_alt_l|by apply matches_alt_r].
    + apply matches_alt_inv.
  - rewrite cat_matches. split.
    + intros H. apply matches_cat_inv in H as (s1 & s2 & -> & H1 & H2).
      apply (matches_star_cons _ (c :: s1) s2); [|exact H2]. by apply IHa.
    + intros H. apply matches_star_cons_inv in H as (s1 & s2 & -> & H1 & H2).
      apply matches_cat; [|exact H2]. by apply IHa.
Qed.

(** [test] accepts exactly the inputs in the language of the expression. *)
Theorem test_matches (r : RegExp.t) (s : string) :
  RegExp.test r s = true <-> matches r (JS.chars s).
Proof.
  unfold RegExp.test. generalize (JS.chars s) as l. clear s. intros l.
  revert r. induction l as [|c l IH]; intros r; simpl.
  - apply nullable_matches.
  - rewrite IH. apply deriv_matches.
Qed.

(** *** Lookups by primary key *)

Section Find.
Context {A : Type} (p : A -> bool).

Lemma find_app_Some (l l' : list A) (a : A) :
  List.find p l = Some a -> List.find p (l ++ l') = Some a.
Proof.
  induction l as [|x l IH]; simpl; [discriminate|].
  destruct (p x); auto.
Qed.

Lemma find_app_None (l l' : list A) :
  List.find p l = None -> List.find p (l ++ l') = List.find p l'.
Proof.
  induction l as [|x l IH]; simpl; [reflexivity|].
  destruct (p x); [discriminate|auto].
Qed.

Lemma find_map_stable (g : A -> A) (l : list A) :
  (forall a, p (g a) = p a) ->
  List.find p (map g l) = g <$> List.find p l.
Proof.
  intros Hg. induction l as [|x l IH]; simpl; [reflexivity|].
  rewrite Hg. destruct (p x); auto.
Qed.

Lemma find_Some_holds (l : list A) (a : A) :
  List.find p l = Some a -> a ∈ l /\ p a = true.
Proof.
  induction l as [|x l IH]; simpl; [discriminate|].
  destruct (p x) eqn:Hx.
  - intros [= <-]. split; [left|assumption].
  - intros H. destruct (IH H). split; [by right|assumption].
Qed.

Lemma find_None_all (l : list A) :
  List.find p l = None <-> forall a, a ∈ l -> p a = false.
Proof.
  induction l as [|x l IH]; simpl.
  - split; [|reflexivity]. intros _ a Ha. inversion Ha.
  - destruct (p x) eqn:Hx.
    + split; [discriminate|]. intros H.
      specialize (H x (list_elem_of_here _ _)). congruence.
    + rewrite IH. split.
      * intros H a Ha. inversion Ha; subst; auto.
      * intros H a Ha. apply H. by right.
Qed.
End Find.

(** *** Well-formed agent tables *)

Lemma bump_id (i n : Z) (a : Agent.t) : Agent.id (bump i n a) = Agent.id a.
Proof. unfold bump. destruct (Agent.id a =? i); reflexivity. Qed.

Lemma bump_other (i n : Z) (a : Agent.t) : Agent.id a <> i -> bump i n a = a.
Proof. unfold bump. intros H. destruct (Z.eqb_spec (Agent.id a) i); congruence. Qed.

Lemma bump_bump (i n m : Z) (a : Agent.t) :
  bump i m (bump i n a) = bump i (n + m) a.
Proof.
  unfold bump. destruct (Z.eqb_spec (Agent.id a) i) as [E|E]; simpl.
  - destruct (Z.eqb_spec (Agent.id a) i); [|congruence].
    destruct a; unfold Agent.add_forks; simpl. f_equal. lia.
  - destruct (Z.eqb_spec (Agent.id a) i); congruence.
Qed.

Lemma map_id_bump (i n : Z) (l : list Agent.t) :
  map Agent.id (map (bump i n) l) = map Agent.id l.
Proof.
  rewrite map_map. apply map_ext. intros a. apply bump_id.
Qed.

Lemma submit_agent_agents (b : submission) (now : Z) (d : store) :
  agents (snd (submit_agent b now d)) =
    match lineage b with
    | Some i => map (bump i 1) (agents d ++ [submitted_row b now d])
    | None => agents d ++ [submitted_row b now d]
    end.
Proof.
  unfold submit_agent, insert_agent, submitted_row. simpl.
  destruct (lineage b); reflexivity.
Qed.

Lemma submit_agent_seq (b : submission) (now : Z) (d : store) :
  seq_agents (snd (submit_agent b now d)) = seq_agents d + 1.
Proof.
  unfold submit_agent, insert_agent. simpl. destruct (lineage b); reflexivity.
Qed.

Lemma submit_agent_lastID (b : submission) (now : Z) (d : store) :
  fst (submit_agent b now d) = seq_agents d + 1.
Proof.
  unfold submit_agent, insert_agent. simpl. destruct (lineage b); reflexivity.
Qed.

Lemma post_submit_valid (u : option string) (b : submission) (now : Z)
    (st : state) :
  valid_submission b = true ->
  post_submit u b now st =
    (mkState (sessions st) (snd (submit_agent b now (db st))),
     Redirect "/browse").
Proof.
  unfold valid_submission, post_submit. intros H.
  apply andb_true_iff in H as [-> ->]. reflexivity.
Qed.

Lemma post_submit_invalid (u : option string) (b : submission) (now : Z)
    (st : state) :
  valid_submission b = false ->
  fst (post_submit u b now st) = st.
Proof.
  unfold valid_submission, post_submit. intros H.
  destruct (fields_present b); simpl in *; [|reflexivity].
  rewrite H. reflexivity.
Qed.

Lemma wf_agents_submit (b : submission) (now : Z) (d : store) :
  wf_agents d -> wf_agents (snd (submit_agent b now d)).
Proof.
  intros (Hseq & Hnd & Hall). unfold wf_agents.
  rewrite submit_agent_seq, submit_agent_agents.
  assert (Hnew : NoDup (map Agent.id (agents d ++ [submitted_row b now d]))).
  { rewrite map_app. simpl. apply NoDup_app. split; [assumption|]. split.
    - intros x Hx Hx'. apply list_elem_of_singleton in Hx'. subst x.
      apply list_elem_of_fmap in Hx as (a & Ha & Hin).
      rewrite Forall_forall in Hall. specialize (Hall a Hin). lia.
    - apply NoDup_singleton. }
  assert (Hb : Forall (fun a => 1 <= Agent.id a <= seq_agents d + 1)
                      (agents d ++ [submitted_row b now d])).
  { apply Forall_app. split.
    - eapply Forall_impl; [exact Hall|]. simpl. intros. lia.
    - constructor; [|constructor]. simpl. lia. }
  split; [lia|].
  destruct (lineage b) as [i|].
  - split.
    + rewrite map_id_bump. assumption.
    + apply Forall_fmap. eapply Forall_impl; [exact Hb|].
      intros a Ha. simpl. rewrite bump_id. assumption.
  - split; assumption.
Qed.

Lemma handle_agents_other (e : env) (r : request) (st : state) :
  (forall b, r <> PostSubmit b) ->
  agents (db (fst (handle e r st))) = agents (db st) /\
  seq_agents (db (fst (handle e r st))) = seq_agents (db st).
Proof.
  intros Hr. destruct r as [w sg| | |c s o|i|i|a s c|b]; simpl;
    try (split; reflexivity).
  - unfold post_login. destruct (JS.truthy w); split; reflexivity.
  - unfold post_logout. destruct (JS.truthy (x_session_id e)); split; reflexivity.
  - unfold post_rate.
    destruct (rating_rejected a s); [split; reflexivity|].
    destruct (JS.parseInt a); [split; reflexivity|].
    destruct (JS.parseInt s); [split; reflexivity|].
    unfold insert_rating.
    destruct (negb _); [split; reflexivity|].
    destruct (existsb _ _); split; reflexivity.
  - exfalso. by eapply Hr.
Qed.

Lemma wf_agents_handle (e : env) (r : request) (st : state) :
  wf_agents (db st) -> wf_agents (db (fst (handle e r st))).
Proof.
  intros Hwf. destruct r as [w sg| | |c s o|i|i|a s c|b];
    try (match goal with
         | |- context [handle e ?r st] =>
             destruct (handle_agents_other e r st) as [Ha Hs];
             [discriminate|]
         end;
         unfold wf_agents in *; rewrite Ha, Hs; exact Hwf).
  simpl. destruct (valid_submission b) eqn:Hv.
  - rewrite post_submit_valid by assumption. simpl.
    by apply wf_agents_submit.
  - rewrite post_submit_invalid by assumption. assumption.
Qed.

Lemma wf_agents_init : wf_agents (db init).
Proof.
  unfold wf_agents. simpl. split; [lia|]. split; constructor.
Qed.

Lemma reachable_wf_agents (st : state) : reachable st -> wf_agents (db st).
Proof.
  induction 1 as [|e r st _ IH].
  - apply wf_agents_init.
  - by apply wf_agents_handle.
Qed.

Lemma reachable_run (rs : list (env * request)) (st : state) :
  reachable st -> reachable (run rs st).
Proof.
  revert st. induction rs as [|[e r] rs IH]; intros st H; simpl.
  - assumption.
  - apply IH. by constructor.
Qed.

Lemma select_agent_id (i : Z) (d : store) (a : Agent.t) :
  select_agent i d = Some a -> a ∈ agents d /\ Agent.id a = i.
Proof.
  unfold select_agent. intros H. apply find_Some_holds in H as [Hin Hp].
  split; [assumption|]. by apply Z.eqb_eq.
Qed.

Lemma select_agent_bound (i : Z) (d : store) (a : Agent.t) :
  wf_agents d -> select_agent i d = Some a -> 1 <= i <= seq_agents d.
Proof.
  intros (_ & _ & Hall) H. apply select_agent_id in H as [Hin <-].
  rewrite Forall_forall in Hall. by apply Hall.
Qed.

Lemma find_id_bump (j i n : Z) (l : list Agent.t) :
  List.find (fun a => Agent.id a =? j) (map (bump i n) l) =
  bump i n <$> List.find (fun a => Agent.id a =? j) l.
Proof.
  apply find_map_stable. intros a. by rewrite bump_id.
Qed.

(** *** Submissions without lineage *)

(** C10. An otherwise valid submission whose [original_agent_id] is absent,
    empty, without a leading integer, or parses to zero is accepted with the
    success redirect; it appends one row with a [NULL] lineage pointer and
    leaves every existing agent row, hence every fork count, as it was. *)
Theorem submit_without_lineage (u : option string) (b : submission)
    (now : Z) (st : state) :
  valid_submission b = true ->
  (original_agent_id b = None \/ original_agent_id b = Some ""
   \/ JS.parseInt (original_agent_id b) = JS.NaN
   \/ JS.parseInt (original_agent_id b) = JS.Num 0) ->
  let st' := fst (post_submit u b now st) in
  let row :=
    Agent.mk (seq_agents (db st) + 1) (JS.toString (name b))
             (JS.toString (description b)) (JS.toString (category b))
             (Some (JS.toString (link b))) None None None 0 false now in
  snd (post_submit u b now st) = Redirect "/browse" /\
  agents (db st') = agents (db st) ++ [row] /\
  Agent.original_agent_id row = None /\
  (forall i a, select_agent i (db st) = Some a ->
               select_agent i (db st') = Some a).
Proof.
  intros Hv Hl. apply lineage_None in Hl. simpl.
  rewrite post_submit_valid by assumption. simpl.
  rewrite submit_agent_agents. unfold submitted_row. rewrite Hl.
  repeat split.
  intros i a Ha. unfold select_agent in *.
  rewrite submit_agent_agents, Hl. by apply find_app_Some.
Qed.

Lemma submit_without_lineage_witness :
  let b := mkSubmission (Some "Bot1") (Some "d") (Some "Other")
                        (Some "http://x.com") None None None (Some "0") in
  snd (post_submit None b 100 init) = Redirect "/browse" /\
  agents (db (fst (post_submit None b 100 init))) =
    [Agent.mk 1 "Bot1" "d" "Other" (Some "http://x.com")
              None None None 0 false 100].
Proof.
  intros b.
  destruct (submit_without_lineage None b 100 init) as (H1 & H2 & _).
  - vm_compute. reflexivity.
  - right. right. right. vm_compute. reflexivity.
  - split; [exact H1 | exact H2].
Defined.

(** *** Forking *)

(** C4. Two valid submissions whose [original_agent_id] parses to the id of
    an existing agent [A] add exactly 2 to the fork count of [A], append
    exactly two rows whose lineage pointer is that id, and leave every other
    agent row as it was. *)
Theorem fork_twice (u1 u2 : option string) (b1 b2 : submission)
    (now1 now2 : Z) (st : state) (i : Z) (A : Agent.t) :
  wf_agents (db st) ->
  select_agent i (db st) = Some A ->
  valid_submission b1 = true ->
  valid_submission b2 = true ->
  JS.parseInt (original_agent_id b1) = JS.Num i ->
  JS.parseInt (original_agent_id b2) = JS.Num i ->
  let st1 := fst (post_submit u1 b1 now1 st) in
  let st2 := fst (post_submit u2 b2 now2 st1) in
  select_agent i (db st2) = Some (Agent.add_forks 2 A) /\
  (exists c1 c2,
      agents (db st2) = map (bump i 2) (agents (db st)) ++ [c1; c2] /\
      Agent.original_agent_id c1 = Some i /\
      Agent.original_agent_id c2 = Some i /\
      Agent.fork_count c1 = 0 /\ Agent.fork_count c2 = 0) /\
  (forall j B, j <> i -> select_agent j (db st) = Some B ->
               select_agent j (db st2) = Some B).
Proof.
  intros Hwf HA Hv1 Hv2 Hp1 Hp2. simpl.
  pose proof (select_agent_bound _ _ _ Hwf HA) as Hi.
  assert (Hl1 : lineage b1 = Some i) by (apply lineage_Some; [assumption|lia]).
  assert (Hl2 : lineage b2 = Some i) by (apply lineage_Some; [assumption|lia]).
  rewrite (post_submit_valid u1) by assumption. simpl.
  rewrite (post_submit_valid u2) by assumption. simpl.
  set (d1 := snd (submit_agent b1 now1 (db st))).
  set (c1 := submitted_row b1 now1 (db st)).
  set (c2 := submitted_row b2 now2 d1).
  assert (Hd1 : agents d1 = map (bump i 1) (agents (db st)) ++ [c1]).
  { unfold d1. rewrite submit_agent_agents, Hl1, map_app. fold c1.
    cbn [map]. rewrite (bump_other i 1 c1); [reflexivity|].
    unfold c1. simpl. lia. }
  assert (Hd2 : agents (snd (submit_agent b2 now2 d1)) =
                map (bump i 2) (agents (db st)) ++ [c1; c2]).
  { rewrite submit_agent_agents, Hl2, Hd1, !map_app, map_map. fold c2.
    cbn [map]. rewrite (bump_other i 1 c1) by (unfold c1; simpl; lia).
    rewrite (bump_other i 1 c2).
    2:{ unfold c2. simpl. unfold d1. rewrite submit_agent_seq. lia. }
    rewrite <- app_assoc. simpl. f_equal.
    apply map_ext. intros a. apply bump_bump. }
  split; [|split].
  - unfold select_agent in *. rewrite Hd2.
    apply find_app_Some. rewrite find_id_bump, HA. simpl.
    apply select_agent_id in HA as [_ HA]. unfold bump.
    apply Z.eqb_eq in HA. by rewrite HA.
  - exists c1, c2. split; [exact Hd2|]. simpl. auto.
  - intros j B Hj HB. unfold select_agent in *. rewrite Hd2.
    apply find_app_Some. rewrite find_id_bump, HB. simpl.
    apply select_agent_id in HB as [_ HB].
    rewrite bump_other; [reflexivity|]. unfold select_agent in *. lia.
Qed.

Lemma fork_twice_witness :
  let b0 := mkSubmission (Some "Bot1") (Some "d") (Some "Other")
                         (Some "http://x.com") None None None None in
  let bf := mkSubmission (Some "Fork of Bot1") (Some "d") (Some "Other")
                         (Some "http://x.com") None None None (Some "1") in
  let st := fst (post_submit None b0 100 init) in
  let st2 := fst (post_submit None bf 102 (fst (post_submit None bf 101 st))) in
  select_agent 1 (db st2) =
    Some (Agent.mk 1 "Bot1" "d" "Other" (Some "http://x.com")
                   None None None 2 false 100).
Proof.
  intros b0 bf st st2.
  assert (Hwf : wf_agents (db st)).
  { apply (wf_agents_handle (mkEnv None 100 "") (PostSubmit b0) init).
    apply wf_agents_init. }
  refine (proj1 (fork_twice None None bf bf 101 102 st 1
                   (Agent.mk 1 "Bot1" "d" "Other" (Some "http://x.com")
                             None None None 0 false 100) Hwf _ _ _ _ _));
    vm_compute; reflexivity.
Defined.

(** *** What a submission stores *)

(** The row of an accepted submission, read back by [this.lastID]: the four
    required fields are the submitted ones; the content hash, the creator
    wallet and the premium flag are the column defaults whatever the request
    carried; the fork count is 0 unless the lineage pointer is the very id
    the row receives. *)
Lemma submit_stored_row (u : option string) (b : submission) (now : Z)
    (st : state) :
  wf_agents (db st) ->
  valid_submission b = true ->
  exists row,
    select_agent (fst (submit_agent b now (db st)))
                 (db (fst (post_submit u b now st))) = Some row /\
    Agent.name row = JS.toString (name b) /\
    Agent.description row = JS.toString (description b) /\
    Agent.category row = JS.toString (category b) /\
    Agent.link row = Some (JS.toString (link b)) /\
    Agent.original_agent_id row = lineage b /\
    Agent.ipfs_hash row = None /\
    Agent.creator_wallet row = None /\
    Agent.is_premium row = false /\
    Agent.fork_count row =
      match lineage b with
      | Some i => if seq_agents (db st) + 1 =? i then 1 else 0
      | None => 0
      end.
Proof.
  intros (Hseq & Hnd & Hall) Hv.
  rewrite post_submit_valid by assumption. simpl.
  rewrite submit_agent_lastID. unfold select_agent.
  rewrite submit_agent_agents.
  set (row := submitted_row b now (db st)).
  assert (Hold : List.find (fun a => Agent.id a =? seq_agents (db st) + 1)
                           (agents (db st)) = None).
  { apply find_None_all. intros a Ha. rewrite Forall_forall in Hall.
    specialize (Hall a Ha). lia. }
  assert (Hrow : List.find (fun a => Agent.id a =? seq_agents (db st) + 1)
                           (agents (db st) ++ [row]) = Some row).
  { rewrite find_app_None by assumption. simpl. by rewrite Z.eqb_refl. }
  destruct (lineage b) as [i|] eqn:Hl.
  - exists (bump i 1 row). rewrite find_id_bump, Hrow. split; [reflexivity|].
    unfold bump. change (Agent.id row) with (seq_agents (db st) + 1).
    destruct (seq_agents (db st) + 1 =? i); simpl; rewrite ?Hl;
      by repeat split.
  - exists row. split; [assumption|]. simpl. rewrite ?Hl. by repeat split.
Qed.

(** On the empty database a submission whose lineage pointer is 1 becomes
    agent 1, points at itself, and is counted as its own fork. *)
Example self_fork :
  agents (db (fst (post_submit None
                     (mkSubmission (Some "Bot1") (Some "d") (Some "Other")
                                   (Some "http://x.com") None None None
                                   (Some "1"))
                     100 init)))
    = [Agent.mk 1 "Bot1" "d" "Other" (Some "http://x.com")
                None None (Some 1) 1 false 100].
Proof. vm_compute. reflexivity. Qed.

(** C1. The claim asks that the stored row carry the premium flag, the
    content hash and the session's wallet as submitted. On the request
    below, sent with a resolved session for wallet 0xabc, the handler
    accepts the submission and the row read back by the new id has
    [is_premium = 0], [ipfs_hash = NULL] and [creator_wallet = NULL]. *)
Theorem submit_drops_premium_hash_creator :
  let e := mkEnv (Some "s1") 200 "s2" in
  let st' := fst (handle e (PostSubmit premium_submission) creator_session) in
  checkSession (x_session_id e) creator_session = Some "0xabc" /\
  valid_submission premium_submission = true /\
  is_premium premium_submission = Some "on" /\
  ipfs_hash premium_submission = Some "QmContentHash" /\
  snd (handle e (PostSubmit premium_submission) creator_session)
    = Redirect "/browse" /\
  select_agent (fst (submit_agent premium_submission 200 (db creator_session)))
               (db st')
    = Some (Agent.mk 1 "Bot1" "d" "Other" (Some "http://x.com")
                     None None None 0 false 200).
Proof. vm_compute. repeat split; reflexivity. Qed.

(** *** Ratings *)

Lemma post_rate_response (agent_id stars comment : option string) (now : Z)
    (st : state) :
  snd (post_rate agent_id stars comment now st)
    = Redirect ("/agent/" ++ JS.toString agent_id)%string.
Proof.
  unfold post_rate. destruct (rating_rejected agent_id stars); [reflexivity|].
  destruct (JS.parseInt agent_id); [reflexivity|].
  destruct (JS.parseInt stars); [reflexivity|].
  destruct (insert_rating _ _ _ _ _); reflexivity.
Qed.

Lemma no_conflict_without_wallet (a : Z) (l : list Rating.t) :
  existsb (rating_conflict a None) l = false.
Proof. induction l as [|r l IH]; simpl; [reflexivity|exact IH]. Qed.

(** A rating that passes validation is always stored, in any state and
    whoever sends it, as a new row whose wallet is [NULL]. *)
Lemma accepted_rating_stored (agent_id stars comment : option string)
    (now : Z) (st : state) :
  rating_rejected agent_id stars = false ->
  exists a s,
    JS.parseInt agent_id = JS.Num a /\ JS.parseInt stars = JS.Num s /\
    1 <= s <= 5 /\
    ratings (db (fst (post_rate agent_id stars comment now st)))
      = ratings (db st)
        ++ [Rating.mk (seq_ratings (db st) + 1) a None s
                      (if JS.truthy comment then comment else None) now].
Proof.
  intros H. unfold post_rate. rewrite H. unfold rating_rejected in H.
  destruct (JS.parseInt agent_id) as [|a]; [discriminate|].
  destruct (JS.parseInt stars) as [|s]; [discriminate|].
  simpl in H. apply orb_false_iff in H as [H1 H2].
  apply Z.ltb_ge in H1, H2. exists a, s.
  unfold insert_rating.
  assert ((1 <=? s) && (s <=? 5) = true) as ->.
  { apply andb_true_iff. split; by apply Z.leb_le. }
  simpl. rewrite no_conflict_without_wallet. simpl.
  repeat split; try reflexivity; lia.
Qed.

(** C2. The handler's INSERT does not name [wallet_address], so the
    [UNIQUE(agent_id, wallet_address)] constraint of the table never sees
    the wallet of the session. The same identified wallet rates agent 1
    twice: the second request gets the very redirect the first got, which
    is also the redirect of a request refused by validation; it changes the
    database; afterwards agent 1 has two rating rows, both with a [NULL]
    wallet, and none for the pair (1, 0xabc). *)
Lemma second_rating_is_stored :
  let e := mkEnv (Some "s1") 200 "s2" in
  let rate := PostRate (Some "1") (Some "5") None in
  let first := handle e rate rater_session in
  let second := handle e rate (fst first) in
  checkSession (x_session_id e) rater_session = Some "0xabc" /\
  snd second = snd first /\
  snd second = snd (handle e (PostRate (Some "1") (Some "6") None) (fst first)) /\
  db (fst second) <> db (fst first) /\
  length (ratings_of 1 None (db (fst second))) = 2%nat /\
  length (ratings_of 1 (Some "0xabc") (db (fst second))) = 0%nat.
Proof.
  vm_compute. repeat split; try reflexivity. discriminate.
Qed.

(** C5, as stated, fails: the stars value 3.5 is not an integer, and the
    request is accepted; a row with 3 stars is created. *)
Lemma fractional_stars_accepted :
  denotes_integer "3.5" = false /\
  rating_rejected (Some "1") (Some "3.5") = false /\
  ratings (db (fst (post_rate (Some "1") (Some "3.5") None 100 init)))
    = [Rating.mk 1 1 None 3 None 100].
Proof. vm_compute. repeat split; reflexivity. Qed.

(** C5, amended. A rating request is rejected, and the state with its
    ratings table left as it was, whenever [parseInt] finds no leading
    integer in [agent_id] or in [stars], or the integer it finds in [stars]
    lies outside 1..5. *)
Theorem invalid_rating_rejected (agent_id stars comment : option string)
    (now : Z) (st : state) :
  (JS.parseInt agent_id = JS.NaN \/ JS.parseInt stars = JS.NaN
   \/ exists s, JS.parseInt stars = JS.Num s /\ (s < 1 \/ 5 < s)) ->
  post_rate agent_id stars comment now st
    = (st, Redirect ("/agent/" ++ JS.toString agent_id)%string).
Proof.
  intros H. unfold post_rate.
  assert (rating_rejected agent_id stars = true) as ->; [|reflexivity].
  unfold rating_rejected.
  destruct H as [-> | [-> | (s & -> & Hs)]]; simpl.
  - reflexivity.
  - by rewrite orb_true_r.
  - rewrite !orb_true_iff. destruct Hs.
    + left. right. by apply Z.ltb_lt.
    + right. by apply Z.ltb_lt.
Qed.

Lemma invalid_rating_rejected_witness :
  post_rate (Some "1") (Some "6") None 100 init = (init, Redirect "/agent/1")
  /\ post_rate (Some "1") (Some "0") None 100 init = (init, Redirect "/agent/1")
  /\ post_rate (Some "x") (Some "5") None 100 init = (init, Redirect "/agent/x").
Proof.
  split; [|split].
  - apply (invalid_rating_rejected (Some "1") (Some "6") None 100 init).
    right. right. exists 6. split; [reflexivity|lia].
  - apply (invalid_rating_rejected (Some "1") (Some "0") None 100 init).
    right. right. exists 0. split; [reflexivity|lia].
  - apply (invalid_rating_rejected (Some "x") (Some "5") None 100 init).
    left. reflexivity.
Defined.

(** *** Login *)

(** After a login the wallet's row is a fresh one: new id, default tier, no
    handles, both timestamps set to the time of the login. *)
Lemma login_user_row (w : string) (now : Z) (fresh : string) (st : state) :
  w <> "" ->
  select_user w (db (fst (post_login (Some w) now fresh st)))
    = Some (User.mk (seq_users (db st) + 1) w "creator" None None now now).
Proof.
  intros Hw. unfold post_login. simpl.
  destruct (String.eqb_spec w ""); [congruence|]. simpl.
  unfold select_user, insert_or_replace_user. simpl.
  rewrite find_app_None.
  - simpl. by rewrite bool_decide_eq_true_2.
  - apply find_None_all. intros u Hu.
    apply list_elem_of_filter in Hu as [Hne _].
    by apply bool_decide_eq_false_2.
Qed.

(** C9. The claim asks that a login of an existing user only refresh
    [last_login]. Wallet 0xabc logs in at time 100 and again at time 200:
    the second login replaces the row, so its id goes from 1 to 2 and its
    creation timestamp from 100 to 200. On a database whose row for the
    wallet holds the agency tier and two handles, the login resets the tier
    to the default and clears the handles. *)
Theorem login_replaces_user_row :
  let login := PostLogin (Some "0xabc") (Some "mock-signature") in
  let first := fst (handle (mkEnv None 100 "s1") login init) in
  let second := fst (handle (mkEnv None 200 "s2") login first) in
  let agency :=
    mkState ∅ (mkStore [User.mk 1 "0xabc" "agency" (Some "alice.lens")
                                (Some "alice") 100 150]
                       [] [] [] [] 1 0 0) in
  users (db first) = [User.mk 1 "0xabc" "creator" None None 100 100] /\
  users (db second) = [User.mk 2 "0xabc" "creator" None None 200 200] /\
  users (db (fst (handle (mkEnv None 200 "s2") login agency)))
    = [User.mk 2 "0xabc" "creator" None None 200 200].
Proof. vm_compute. repeat split; reflexivity. Qed.

(** *** The fork-count invariant *)

(** C3. The claim asks that every reachable state keep each fork count equal
    to the number of rows pointing at the agent. From the empty database, a
    valid submission with [original_agent_id = "2"] is stored as agent 1
    with lineage pointer 2 while no agent 2 exists, so the update touches
    no row; the next submission becomes agent 2, with fork count 0 and one
    row pointing at it. *)
Theorem fork_count_invariant_broken :
  let dangling :=
    mkSubmission (Some "Bot1") (Some "d") (Some "Other") (Some "http://x.com")
                 None None None (Some "2") in
  let plain :=
    mkSubmission (Some "Bot2") (Some "d") (Some "Other") (Some "http://x.com")
                 None None None None in
  let e := mkEnv None 100 "s" in
  let st := run [(e, PostSubmit dangling); (e, PostSubmit plain)] init in
  reachable st /\
  select_agent 2 (db st)
    = Some (Agent.mk 2 "Bot2" "d" "Other" (Some "http://x.com")
                     None None None 0 false 100) /\
  children 2 (agents (db st)) = 1 /\
  ~ fork_invariant (db st).
Proof.
  intros dangling plain e st. split; [|split; [|split]].
  - apply reachable_run, reachable_init.
  - vm_compute. reflexivity.
  - vm_compute. reflexivity.
  - intros H. unfold fork_invariant in H. rewrite Forall_forall in H.
    specialize (H (Agent.mk 2 "Bot2" "d" "Other" (Some "http://x.com")
                            None None None 0 false 100)).
    assert (Hin : Agent.mk 2 "Bot2" "d" "Other" (Some "http://x.com")
                           None None None 0 false 100 ∈ agents (db st)).
    { vm_compute. right. left. }
    specialize (H Hin). vm_compute in H. discriminate.
Qed.

Lemma children_app (i : Z) (l l' : list Agent.t) :
  children i (l ++ l') = children i l + children i l'.
Proof.
  unfold children. rewrite List.filter_app, length_app. lia.
Qed.

Lemma children_bump (j i n : Z) (l : list Agent.t) :
  children j (map (bump i n) l) = children j l.
Proof.
  unfold children. f_equal. induction l as [|a l IH]; simpl; [reflexivity|].
  assert (Agent.original_agent_id (bump i n a) = Agent.original_agent_id a)
    as ->.
  { unfold bump. destruct (Agent.id a =? i); reflexivity. }
  destruct (bool_decide _); simpl; by rewrite IH.
Qed.

Lemma children_fresh (i : Z) (d : store) :
  lineage_closed d -> seq_agents d < i -> children i (agents d) = 0.
Proof.
  unfold lineage_closed, children. intros H Hi.
  induction H as [|a l Ha _ IH]; simpl; [reflexivity|].
  rewrite bool_decide_eq_false_2; [exact IH|].
  intros E. specialize (Ha _ E). lia.
Qed.

Lemma children_single (j : Z) (a : Agent.t) :
  children j [a] =
    if bool_decide (Agent.original_agent_id a = Some j) then 1 else 0.
Proof. unfold children. simpl. by destruct (bool_decide _). Qed.

Lemma fork_consistent_submit (b : submission) (now : Z) (d : store) :
  fork_consistent d ->
  match lineage b with
  | Some i => is_Some (select_agent i d)
  | None => True
  end ->
  fork_consistent (snd (submit_agent b now d)).
Proof.
  intros (Hwf & Hcl & Hinv) Hg.
  split; [by apply wf_agents_submit|].
  pose proof (children_fresh (seq_agents d + 1) d Hcl ltac:(lia)) as Hfresh.
  unfold lineage_closed, fork_invariant in *.
  rewrite submit_agent_seq, submit_agent_agents.
  set (row := submitted_row b now d).
  destruct (lineage b) as [i|] eqn:Hl.
  - destruct Hg as [A HA].
    pose proof (select_agent_bound _ _ _ Hwf HA) as Hi.
    rewrite map_app. cbn [map].
    rewrite (bump_other i 1 row) by (unfold row; simpl; lia).
    split.
    + apply Forall_app. split.
      * apply Forall_fmap. eapply Forall_impl; [exact Hcl|].
        intros a Ha j Hj. simpl in Hj.
        assert (Agent.original_agent_id (bump i 1 a)
                = Agent.original_agent_id a) as E.
        { unfold bump. destruct (Agent.id a =? i); reflexivity. }
        rewrite E in Hj. specialize (Ha _ Hj). lia.
      * constructor; [|constructor]. intros j Hj.
        unfold row in Hj. simpl in Hj. rewrite Hl in Hj.
        injection Hj as <-. lia.
    + apply Forall_app. split.
      * apply Forall_fmap. eapply Forall_impl; [exact Hinv|].
        intros a Ha. simpl.
        rewrite children_app, children_bump, children_single, bump_id.
        unfold row at 1. simpl. rewrite Hl.
        unfold bump. simpl in Ha.
        destruct (Z.eqb_spec (Agent.id a) i) as [E|Hne]; simpl.
        -- rewrite bool_decide_eq_true_2 by congruence. lia.
        -- rewrite bool_decide_eq_false_2 by congruence. lia.
      * constructor; [|constructor].
        rewrite children_app, children_bump, children_single.
        unfold row. simpl. rewrite Hl, Hfresh.
        rewrite bool_decide_eq_false_2; [reflexivity|].
        intros [= E]. lia.
  - split.
    + apply Forall_app. split.
      * eapply Forall_impl; [exact Hcl|]. intros a Ha j Hj.
        specialize (Ha _ Hj). lia.
      * constructor; [|constructor]. intros j Hj.
        unfold row in Hj. simpl in Hj. congruence.
    + apply Forall_app. split.
      * eapply Forall_impl; [exact Hinv|]. intros a Ha. simpl in Ha |- *.
        rewrite children_app, children_single.
        unfold row at 1. simpl. rewrite Hl.
        rewrite bool_decide_eq_false_2 by discriminate. lia.
      * constructor; [|constructor].
        rewrite children_app, children_single.
        unfold row. simpl. rewrite Hl, Hfresh.
        by rewrite bool_decide_eq_false_2 by discriminate.
Qed.

(** When every submitted lineage pointer names an existing agent, each fork
    count equals the number of rows pointing at the agent, after any
    sequence of logins, logouts, ratings, submissions and reads. *)
Theorem fork_invariant_guarded (st : state) :
  reachable_guarded st -> fork_invariant (db st).
Proof.
  intros H. enough (fork_consistent (db st)) as (_ & _ & Hinv) by exact Hinv.
  induction H as [|e r st _ IH Hg].
  - repeat split; try constructor. simpl. lia.
  - destruct r as [w sg| | |c s o|i|i|a s c|b];
      try (match goal with
           | |- context [handle e ?r st] =>
               destruct (handle_agents_other e r st) as [Ha Hs];
               [discriminate|]
           end;
           unfold fork_consistent, wf_agents, lineage_closed, fork_invariant
             in *;
           rewrite Ha, Hs; exact IH).
    simpl. destruct (valid_submission b) eqn:Hv.
    + rewrite post_submit_valid by assumption. simpl.
      by apply fork_consistent_submit.
    + rewrite post_submit_invalid by assumption. assumption.
Qed.

(** *** Browse: ordering *)

Lemma order_rating_spec (x y : browse_row) :
  order_rel (Some "rating") x y <->
  (avg_rating y < avg_rating x)%Q \/
  ((avg_rating x == avg_rating y)%Q /\ rating_count y <= rating_count x).
Proof.
  unfold order_rel, order_clause.
  rewrite bool_decide_eq_true_2 by reflexivity.
  rewrite orb_true_iff, andb_true_iff, negb_true_iff, Qeq_bool_iff,
    Z.leb_le.
  split; intros [H|H]; [left|right|left|right]; try assumption.
  - apply Qnot_le_lt. intros Hle. apply Qle_bool_iff in Hle. congruence.
  - apply not_true_is_false. intros Hle. apply Qle_bool_iff in Hle.
    by apply Qle_not_lt in Hle.
Qed.

#[global] Instance order_rating_total : Total (order_rel (Some "rating")).
Proof.
  intros x y. rewrite !order_rating_spec.
  destruct (Qlt_le_dec (avg_rating y) (avg_rating x)) as [Hlt|Hle];
    [left; by left|].
  apply Qle_lteq in Hle as [Hlt|Heq]; [right; by left|].
  destruct (Z.le_ge_cases (rating_count y) (rating_count x)).
  - left. right. by split.
  - right. right. split; [by symmetry|assumption].
Qed.

#[global] Instance order_rating_trans : Transitive (order_rel (Some "rating")).
Proof.
  intros x y z. rewrite !order_rating_spec.
  intros [Hxy|[Exy Cxy]] [Hyz|[Eyz Cyz]].
  - left. by eapply Qlt_trans.
  - left. by rewrite <- Eyz.
  - left. by rewrite Exy.
  - right. split; [by rewrite Exy|lia].
Qed.

Lemma StronglySorted_lookup {A : Type} (R : relation A) (l : list A)
    (i j : nat) (x y : A) :
  StronglySorted R l -> (i < j)%nat ->
  l !! i = Some x -> l !! j = Some y -> R x y.
Proof.
  intros Hs. revert i j. induction Hs as [|a l Hs IH Hall]; intros i j Hij Hi Hj.
  - discriminate.
  - destruct j as [|j]; [lia|]. simpl in Hj. destruct i as [|i].
    + simpl in Hi. injection Hi as <-.
      rewrite Forall_forall in Hall. apply Hall.
      by eapply list_elem_of_lookup_2.
    + simpl in Hi. apply (IH i j); [lia|assumption|assumption].
Qed.

(** C7. Under [sort = "rating"] the rows come out with the average stars
    never increasing from one row to a later one, and, where two adjacent
    rows have equal averages, with the rating count not increasing. *)
Theorem browse_rating_sorted (category search : option string) (d : store) :
  let rows := select_browse category search (Some "rating") d in
  (forall (i j : nat) (x y : browse_row),
      (i < j)%nat -> rows !! i = Some x -> rows !! j = Some y ->
      (avg_rating y <= avg_rating x)%Q) /\
  (forall (i : nat) (x y : browse_row),
      rows !! i = Some x -> rows !! S i = Some y ->
      (avg_rating x == avg_rating y)%Q ->
      rating_count y <= rating_count x).
Proof.
  intros rows.
  assert (Hs : StronglySorted (order_rel (Some "rating")) rows).
  { unfold rows, select_browse. apply StronglySorted_merge_sort; apply _. }
  split.
  - intros i j x y Hij Hi Hj.
    pose proof (StronglySorted_lookup _ _ _ _ _ _ Hs Hij Hi Hj) as H.
    apply order_rating_spec in H as [H|[H _]].
    + by apply Qlt_le_weak.
    + rewrite H. apply Qle_refl.
  - intros i x y Hi Hj Heq.
    pose proof (StronglySorted_lookup _ _ _ _ _ _ Hs (Nat.lt_succ_diag_r i)
                  Hi Hj) as H.
    apply order_rating_spec in H as [H|[_ H]]; [|assumption].
    rewrite Heq in H. by apply Qlt_irrefl in H.
Qed.

(** Three agents: the first rated 3, the second rated 5 and 4, the third
    rated 3 twice. By rating they come out second, third, first. *)
Example browse_rating_sample :
  let b n := mkSubmission (Some n) (Some "d") (Some "Other")
                          (Some "http://x.com") None None None None in
  let e := mkEnv None 100 "s" in
  let st :=
    run [(e, PostSubmit (b "A")); (e, PostSubmit (b "B"));
         (e, PostSubmit (b "C"));
         (e, PostRate (Some "1") (Some "3") None);
         (e, PostRate (Some "2") (Some "5") None);
         (e, PostRate (Some "2") (Some "4") None);
         (e, PostRate (Some "3") (Some "3") None);
         (e, PostRate (Some "3") (Some "3") None)] init in
  map (fun r => (Agent.name (agent r), avg_rating r, rating_count r))
      (select_browse None None (Some "rating") (db st))
    = [("B", (9 # 2)%Q, 2); ("C", (6 # 2)%Q, 2); ("A", (3 # 1)%Q, 1)].
Proof. vm_compute. reflexivity. Qed.

(** The sort only rearranges the rows the query selected. *)
Lemma select_browse_elem (category search sort : option string) (d : store)
    (row : browse_row) :
  row ∈ select_browse category search sort d <->
  exists a, a ∈ agents d /\ where_clause category search a = true
            /\ row = browse_group d a.
Proof.
  unfold select_browse. rewrite merge_sort_Permutation.
  rewrite list_elem_of_fmap. split.
  - intros (a & -> & Ha). apply list_elem_of_In, filter_In in Ha as [Ha Hw].
    exists a. by rewrite list_elem_of_In.
  - intros (a & Ha & Hw & ->). exists a. split; [reflexivity|].
    apply list_elem_of_In, filter_In. by rewrite <- list_elem_of_In.
Qed.

(** *** Browse: filters *)

Lemma chars_app (s t : string) :
  JS.chars (s ++ t)%string = JS.chars s ++ JS.chars t.
Proof.
  unfold JS.chars. induction s as [|c s IH]; simpl; [reflexivity|].
  by rewrite IH.
Qed.

Lemma like_percent (p t : list ascii) :
  SQL.like_chars ("%"%char :: p) t = true <->
  exists pre post, t = pre ++ post /\ SQL.like_chars p post = true.
Proof.
  simpl. induction t as [|d t IH].
  - rewrite orb_false_r. split.
    + intros H. by exists [], [].
    + intros (pre & post & E & H).
      symmetry in E. apply app_eq_nil in E as [-> ->]. exact H.
  - rewrite orb_true_iff, IH. split.
    + intros [H|(pre & post & -> & H)].
      * by exists [], (d :: t).
      * by exists (d :: pre), post.
    + intros (pre & post & E & H). destruct pre as [|c pre]; simpl in E.
      * left. by subst post.
      * right. injection E as -> ->. by exists pre, post.
Qed.

Lemma like_only_percent (t : list ascii) :
  SQL.like_chars ["%"%char] t = true.
Proof.
  apply like_percent. exists t, []. split; [by rewrite app_nil_r|reflexivity].
Qed.

Lemma like_literal_then_percent (s t : list ascii) :
  Forall (fun c => c <> "%"%char /\ c <> "_"%char) s ->
  SQL.like_chars (s ++ ["%"%char]) t = true <->
  exists mid post, t = mid ++ post /\
                   map SQL.fold_case mid = map SQL.fold_case s.
Proof.
  intros Hs. revert t. induction Hs as [|c s [Hc1 Hc2] Hs IH]; intros t.
  - split.
    + intros _. by exists [], t.
    + intros _. apply like_only_percent.
  - change ((c :: s) ++ ["%"%char]) with (c :: (s ++ ["%"%char])).
    cbn [SQL.like_chars].
    destruct (Ascii.eqb_spec c "%"); [congruence|].
    destruct (Ascii.eqb_spec c "_"); [congruence|]. simpl.
    destruct t as [|d t].
    + split; [discriminate|]. intros (mid & post & E & H).
      symmetry in E. apply app_eq_nil in E as [-> ->]. discriminate.
    + rewrite andb_true_iff, IH, Ascii.eqb_eq. split.
      * intros (Hcd & mid & post & -> & H).
        exists (d :: mid), post. split; [reflexivity|]. simpl. congruence.
      * intros (mid & post & E & H). destruct mid as [|d' mid]; [discriminate|].
        simpl in E, H. injection E as -> ->. injection H as H1 H2.
        split; [congruence|]. by exists mid, post.
Qed.

Lemma upto_nul_free (l : list ascii) :
  Forall (fun c => c <> "000"%char) l -> SQL.upto_nul l = l.
Proof.
  induction 1 as [|c l Hc _ IH]; simpl; [reflexivity|].
  destruct (Ascii.eqb_spec c "000"); [congruence|]. by rewrite IH.
Qed.

(** What [LIKE] reads of a text is a prefix of the text. *)
Lemma upto_nul_prefix (l : list ascii) :
  exists rest, l = SQL.upto_nul l ++ rest.
Proof.
  induction l as [|c l [rest IH]]; simpl.
  - by exists [].
  - destruct (Ascii.eqb c "000").
    + by exists (c :: l).
    + exists rest. simpl. by rewrite <- IH.
Qed.

(** For a search text without wild cards and without the code unit 0,
    [text LIKE '%search%'] holds exactly when the search text occurs, up to
    letter case, in what the engine reads of the text. *)
Lemma like_contains (s t : string) :
  wildcard_free s -> nul_free s ->
  SQL.like t ("%" ++ s ++ "%")%string = true <->
  exists pre mid post : list ascii,
    SQL.upto_nul (JS.chars t) = pre ++ mid ++ post /\
    map SQL.fold_case mid = map SQL.fold_case (JS.chars s).
Proof.
  intros Hs Hn. unfold SQL.like.
  rewrite !chars_app.
  change (JS.chars "%") with ["%"%char].
  change (["%"%char] ++ JS.chars s ++ ["%"%char])
    with ("%"%char :: (JS.chars s ++ ["%"%char])).
  assert (SQL.upto_nul ("%"%char :: (JS.chars s ++ ["%"%char]))
          = "%"%char :: (JS.chars s ++ ["%"%char])) as ->.
  { apply upto_nul_free. constructor; [discriminate|].
    apply Forall_app. split; [exact Hn|]. constructor; [discriminate|].
    constructor. }
  rewrite like_percent. split.
  - intros (pre & post & E & H).
    apply like_literal_then_percent in H as (mid & post' & -> & H); [|exact Hs].
    by exists pre, mid, post'.
  - intros (pre & mid & post & E & H). exists pre, (mid ++ post).
    split; [assumption|]. apply like_literal_then_percent; [exact Hs|].
    by exists mid, post.
Qed.

(** So such a search text occurs in every text it selects. *)
Lemma like_occurs (s t : string) :
  wildcard_free s -> nul_free s ->
  SQL.like t ("%" ++ s ++ "%")%string = true -> occurs_folded s t.
Proof.
  intros Hs Hn H. apply like_contains in H as (pre & mid & post & E & H);
    [|exact Hs|exact Hn].
  destruct (upto_nul_prefix (JS.chars t)) as [rest Ht].
  exists pre, mid, (post ++ rest). split; [|exact H].
  rewrite Ht, E. by rewrite <- !app_assoc.
Qed.

(** C6, as stated, fails. A search for bot returns the agent Bot1, and so
    do a search for B_t and a search for the digit 1 followed by the code
    unit 0 and zzz, though none of the three texts is a substring of the
    name or of the description. *)
Lemma search_is_not_substring :
  let names rows := map (fun r => Agent.name (agent r)) rows in
  names (select_browse None (Some "bot") None one_agent) = ["Bot1"] /\
  substring "bot" "Bot1" = false /\ substring "bot" "d" = false /\
  names (select_browse None (Some "B_t") None one_agent) = ["Bot1"] /\
  substring "B_t" "Bot1" = false /\ substring "B_t" "d" = false /\
  names (select_browse None (Some search_with_nul) None one_agent)
    = ["Bot1"] /\
  substring search_with_nul "Bot1" = false /\
  substring search_with_nul "d" = false.
Proof. vm_compute. repeat split; reflexivity. Qed.

(** C6, amended. Every row the browse query returns, under any sort mode,
    passes both active filters: when [category] is non-empty and not "all",
    the row's category equals it; when [search] is non-empty, the row's name
    or description matches the pattern [%search%] under [LIKE], which reads
    the pattern and the text up to their first code unit 0; and for a
    search text without [%], [_] and the code unit 0 that means the text
    occurs in the name or in the description up to the case of ASCII
    letters. *)
Theorem browse_rows_pass_filters (category search sort : option string)
    (d : store) (row : browse_row) :
  row ∈ select_browse category search sort d ->
  (forall c, category = Some c -> c <> "" -> c <> "all" ->
             Agent.category (agent row) = c) /\
  (forall s, search = Some s -> s <> "" ->
             SQL.like (Agent.name (agent row)) ("%" ++ s ++ "%")%string = true
             \/ SQL.like (Agent.description (agent row))
                         ("%" ++ s ++ "%")%string = true) /\
  (forall s, search = Some s -> s <> "" -> wildcard_free s -> nul_free s ->
             occurs_folded s (Agent.name (agent row))
             \/ occurs_folded s (Agent.description (agent row))).
Proof.
  intros Hrow. apply select_browse_elem in Hrow as (a & _ & Hw & ->).
  simpl. unfold where_clause in Hw. apply andb_true_iff in Hw as [Hc Hs].
  assert (Hlike : forall s, search = Some s -> s <> "" ->
             SQL.like (Agent.name a) ("%" ++ s ++ "%")%string = true
             \/ SQL.like (Agent.description a) ("%" ++ s ++ "%")%string = true).
  { intros s -> Hne. simpl in Hs.
    destruct (String.eqb_spec s ""); [congruence|]. simpl in Hs.
    by apply orb_true_iff in Hs. }
  split; [|split].
  - intros c -> Hne Hall. simpl in Hc.
    destruct (String.eqb_spec c ""); [congruence|].
    destruct (String.eqb_spec c "all"); [congruence|]. simpl in Hc.
    by apply String.eqb_eq in Hc.
  - exact Hlike.
  - intros s Hs' Hne Hfree Hnul. destruct (Hlike s Hs' Hne) as [H|H];
      [left|right]; by apply like_occurs.
Qed.

Lemma browse_rows_pass_filters_witness :
  let row :=
    mkBrowseRow (Agent.mk 1 "Bot1" "d" "Other" (Some "http://x.com")
                          None None None 0 false 100) None 0%Q 0 None in
  Agent.category (agent row) = "Other" /\
  (SQL.like "Bot1" "%bot%" = true \/ SQL.like "d" "%bot%" = true) /\
  (occurs_folded "bot" "Bot1" \/ occurs_folded "bot" "d").
Proof.
  intros row.
  assert (Hin : row ∈ select_browse (Some "Other") (Some "bot") (Some "forks")
                                     one_agent).
  { vm_compute. left. }
  destruct (browse_rows_pass_filters _ _ _ _ _ Hin) as (Hc & Hs & Ho).
  split; [|split].
  - apply (Hc "Other"); [reflexivity|discriminate|discriminate].
  - apply (Hs "bot"); [reflexivity|discriminate].
  - apply (Ho "bot"); [reflexivity|discriminate| |].
    + unfold wildcard_free. simpl.
      repeat (constructor; [split; discriminate|]). constructor.
    + unfold nul_free. simpl.
      repeat (constructor; [discriminate|]). constructor.
Defined.

(** *** Browse: aggregates *)

(** C8. The claim asks that [rating_count] be the number of rating rows of
    the agent and [tags] the list of exactly its tag names. The query joins
    ratings and tags in one pass and aggregates the product: with one rating
    and two tags the browse row reports 2 ratings where the table holds 1
    and the detail query of the same agent reports 1; with two ratings and
    one tag the tag name is listed twice. *)
Theorem browse_aggregates_fan_out :
  map (fun r => (rating_count r, tag_names r))
      (select_browse None None None rated_once_tagged_twice)
    = [(2, Some "nlp,chat")] /\
  length (ratings_for 1 rated_once_tagged_twice) = 1%nat /\
  detail_rating_count <$> select_detail 1 rated_once_tagged_twice = Some 1 /\
  map (fun r => (rating_count r, tag_names r))
      (select_browse None None None rated_twice_tagged_once)
    = [(2, Some "nlp,nlp")] /\
  tags_for 1 rated_twice_tagged_once = ["nlp"].
Proof. vm_compute. repeat split; reflexivity. Qed.

Lemma filter_never {A : Type} (p : A -> bool) (l : list A) :
  (forall a, p a = false) -> List.filter p l = [].
Proof.
  intros H. induction l as [|a l IH]; simpl; [reflexivity|]. by rewrite H.
Qed.

Lemma left_join_unmatched {A B : Type} (on : A -> B -> bool) (l : list A)
    (r : list B) :
  Forall (fun a => forall b, on a b = false) l ->
  left_join on l r = map (fun a => (a, None)) l.
Proof.
  unfold left_join. induction 1 as [|a l Ha _ IH]; [reflexivity|].
  cbn [flat_map]. rewrite (filter_never (on a)) by exact Ha.
  simpl. apply (f_equal (cons (a, None))). exact IH.
Qed.

Lemma left_join_nil_r {A B : Type} (on : A -> B -> bool) (l : list A) :
  left_join on l [] = map (fun a => (a, None)) l.
Proof.
  unfold left_join. induction l as [|a l IH]; [reflexivity|].
  simpl. apply (f_equal (cons (a, None))). exact IH.
Qed.

Lemma left_join_single {A B : Type} (on : A -> B -> bool) (a : A)
    (r : list B) :
  left_join on [a] r =
    match List.filter (on a) r with
    | [] => [(a, None)]
    | ms => map (fun b => (a, Some b)) ms
    end.
Proof. unfold left_join. simpl. apply app_nil_r. Qed.

Lemma omap_fmap_Some {A B : Type} (f : A -> B) (l : list A) :
  omap (fun r : option A => f <$> r) (map Some l) = map f l.
Proof.
  induction l as [|a l IH]; csimpl; [reflexivity|]. by rewrite IH.
Qed.

Lemma group_stars_untagged (a : Agent.t) (l : list (option Rating.t)) :
  group_stars (map (untagged_row a) l) = omap (fun r => Rating.stars <$> r) l.
Proof.
  unfold group_stars. induction l as [|r l IH]; csimpl; [reflexivity|].
  rewrite IH. by destruct r.
Qed.

Lemma group_rating_ids_untagged (a : Agent.t) (l : list (option Rating.t)) :
  group_rating_ids (map (untagged_row a) l)
    = omap (fun r => Rating.id <$> r) l.
Proof.
  unfold group_rating_ids. induction l as [|r l IH]; csimpl; [reflexivity|].
  rewrite IH. by destruct r.
Qed.

Lemma group_tag_names_untagged (a : Agent.t) (l : list (option Rating.t)) :
  group_tag_names (map (untagged_row a) l) = [].
Proof.
  unfold group_tag_names. induction l as [|r l IH]; csimpl; [reflexivity|].
  exact IH.
Qed.

(** The join of an agent without tags and without creator. *)
Lemma joined_untagged (d : store) (a : Agent.t) :
  agent_tags d = [] ->
  Agent.creator_wallet a = None ->
  joined d a =
    map (untagged_row a)
        (match ratings_for (Agent.id a) d with
         | [] => [None]
         | ms => map Some ms
         end).
Proof.
  intros Ht Hc. unfold joined. rewrite Ht.
  rewrite (left_join_unmatched _ [a] (users d)).
  2:{ constructor; [|constructor]. intros u. by rewrite Hc. }
  cbn [map]. rewrite left_join_single.
  rewrite left_join_nil_r.
  rewrite (left_join_unmatched _ _ (tags d)).
  2:{ apply Forall_fmap, Forall_forall. intros [[? ?] ?] _ tg. reflexivity. }
  unfold ratings_for.
  destruct (List.filter _ (ratings d)) as [|r0 rs]; [reflexivity|].
  simpl. rewrite !map_map. reflexivity.
Qed.

(** Where no tag is attached and the agent has no creator, the browse row
    carries the agent's own ratings: their mean (0 when there is none),
    their number, and no tag list. *)
Lemma browse_group_untagged (d : store) (a : Agent.t) :
  agent_tags d = [] ->
  Agent.creator_wallet a = None ->
  browse_group d a =
    mkBrowseRow a None
      (coalesce_avg (map Rating.stars (ratings_for (Agent.id a) d)))
      (Z.of_nat (length (ratings_for (Agent.id a) d)))
      None.
Proof.
  intros Ht Hc. unfold browse_group. rewrite (joined_untagged d a Ht Hc).
  rewrite group_stars_untagged, group_rating_ids_untagged,
    group_tag_names_untagged.
  destruct (ratings_for (Agent.id a) d) as [|r0 rs]; [reflexivity|].
  rewrite !omap_fmap_Some, length_map. reflexivity.
Qed.

(** No handler writes the tag tables or a creator wallet. *)
Lemma reachable_untagged (st : state) :
  reachable st ->
  tags (db st) = [] /\ agent_tags (db st) = [] /\
  Forall (fun a => Agent.creator_wallet a = None) (agents (db st)).
Proof.
  induction 1 as [|e r st _ (Ht & Hat & Hcw)].
  - repeat split. constructor.
  - destruct r as [w sg| | |c s o|i|i|a s c|b]; simpl;
      try (repeat split; assumption).
    + unfold post_login. destruct (JS.truthy w); repeat split; assumption.
    + unfold post_logout. destruct (JS.truthy (x_session_id e));
        repeat split; assumption.
    + unfold post_rate. destruct (rating_rejected a s);
        [repeat split; assumption|].
      destruct (JS.parseInt a); [repeat split; assumption|].
      destruct (JS.parseInt s); [repeat split; assumption|].
      unfold insert_rating.
      destruct (negb _); [repeat split; assumption|].
      destruct (existsb _ _); repeat split; assumption.
    + destruct (valid_submission b) eqn:Hv.
      * rewrite post_submit_valid by assumption. simpl.
        split; [|split].
        -- unfold submit_agent, insert_agent. simpl.
           destruct (lineage b); assumption.
        -- unfold submit_agent, insert_agent. simpl.
           destruct (lineage b); assumption.
        -- rewrite submit_agent_agents.
           assert (Forall (fun a => Agent.creator_wallet a = None)
                          (agents (db st) ++ [submitted_row b (now e) (db st)])).
           { apply Forall_app. split; [assumption|]. by repeat constructor. }
           destruct (lineage b) as [i|]; [|assumption].
           apply Forall_fmap. eapply Forall_impl; [eassumption|].
           intros x Hx. simpl. unfold bump.
           destruct (Agent.id x =? i); assumption.
      * rewrite post_submit_invalid by assumption. repeat split; assumption.
Qed.

(** In every state the handlers can produce, each browse row carries the
    mean of the agent's stars (0 when it has no rating), the number of its
    rating rows, and no tag list. *)
Theorem browse_aggregates_reachable (category search sort : option string)
    (st : state) (row : browse_row) :
  reachable st ->
  row ∈ select_browse category search sort (db st) ->
  let rs := ratings_for (Agent.id (agent row)) (db st) in
  avg_rating row = coalesce_avg (map Rating.stars rs) /\
  rating_count row = Z.of_nat (length rs) /\
  tag_names row = None.
Proof.
  intros Hr Hrow. apply reachable_untagged in Hr as (_ & Hat & Hcw).
  apply select_browse_elem in Hrow as (a & Ha & _ & ->).
  rewrite Forall_forall in Hcw.
  rewrite (browse_group_untagged _ _ Hat (Hcw a Ha)). simpl. by repeat split.
Qed.

(** ** Further properties *)

(** *** Printing and parsing row ids *)

Lemma truthy_Some (s : string) : s <> "" -> JS.truthy (Some s) = true.
Proof. intros H. simpl. by destruct (String.eqb_spec s ""). Qed.

Lemma chars_of_list (l : list ascii) : JS.chars (string_of_list_ascii l) = l.
Proof. apply list_ascii_of_string_of_list_ascii. Qed.

Lemma chars_length (s : string) : length (JS.chars s) = String.length s.
Proof.
  unfold JS.chars. induction s as [|c s IH]; simpl; [reflexivity|].
  by rewrite IH.
Qed.

Lemma mathInt_snoc (ds : list Z) (d : Z) :
  JS.mathInt 10 (ds ++ [d]) = JS.mathInt 10 ds * 10 + d.
Proof. unfold JS.mathInt. by rewrite fold_left_app. Qed.

Lemma decimal_digits_spec (fuel : nat) (n : Z) :
  (1 <= fuel)%nat -> 0 <= n < 2 ^ Z.of_nat fuel ->
  decimal_digits fuel n <> [] /\
  Forall (fun d => 0 <= d <= 9) (decimal_digits fuel n) /\
  JS.mathInt 10 (decimal_digits fuel n) = n.
Proof.
  revert n. induction fuel as [|fuel IH]; intros n Hf Hn; [lia|].
  cbn [decimal_digits]. destruct (Z.ltb_spec n 10) as [Hlt|Hge].
  - split; [discriminate|]. split; [|reflexivity].
    constructor; [lia|constructor].
  - assert (Hpow : 2 ^ Z.of_nat (S fuel) = 2 * 2 ^ Z.of_nat fuel).
    { rewrite Nat2Z.inj_succ, Z.pow_succ_r; lia. }
    assert (Hq : 0 <= n / 10 < 2 ^ Z.of_nat fuel).
    { split; [apply Z.div_pos; lia|].
      apply Z.div_lt_upper_bound; lia. }
    assert (Hq1 : 1 <= n / 10).
    { apply Z.div_le_lower_bound; lia. }
    assert (Hfuel : (1 <= fuel)%nat).
    { destruct fuel; [simpl in Hq; lia|lia]. }
    destruct (IH (n / 10) Hfuel Hq) as (Hne & Hall & Hval).
    split; [|split].
    + intros E. apply app_eq_nil in E as [_ E]. discriminate.
    + apply Forall_app. split; [assumption|].
      constructor; [|constructor].
      pose proof (Z.mod_pos_bound n 10). lia.
    + rewrite mathInt_snoc, Hval.
      pose proof (Z.div_mod n 10). lia.
Qed.

Lemma digit_cases (d : Z) :
  0 <= d <= 9 ->
  d = 0 \/ d = 1 \/ d = 2 \/ d = 3 \/ d = 4 \/ d = 5 \/ d = 6 \/ d = 7
  \/ d = 8 \/ d = 9.
Proof. lia. Qed.

Lemma radixDigit_digit_char (d : Z) :
  0 <= d <= 9 -> JS.radixDigit 10 (digit_char d) = Some d.
Proof.
  intros H. apply digit_cases in H.
  repeat (destruct H as [->|H]; [reflexivity|]). by subst.
Qed.

Lemma digitsPrefix_digits (ds : list Z) :
  Forall (fun d => 0 <= d <= 9) ds ->
  JS.digitsPrefix 10 (map digit_char ds) = ds.
Proof.
  induction 1 as [|d ds Hd _ IH]; [reflexivity|].
  cbn [map JS.digitsPrefix]. rewrite radixDigit_digit_char by assumption.
  by rewrite IH.
Qed.

(** A run of decimal digits parses to the number it spells. *)
Lemma parseInt_digits (ds : list Z) :
  ds <> [] -> Forall (fun d => 0 <= d <= 9) ds ->
  JS.parseInt_chars (map digit_char ds) = JS.Num (JS.mathInt 10 ds).
Proof.
  intros Hne Hall.
  assert (Hgo : forall S2, S2 = map digit_char ds ->
            match JS.digitsPrefix 10 S2 with
            | [] => JS.NaN
            | z :: l => JS.Num (1 * JS.mathInt 10 (z :: l))
            end = JS.Num (JS.mathInt 10 ds)).
  { intros S2 ->. rewrite digitsPrefix_digits by assumption.
    destruct ds as [|d ds']; [congruence|].
    by rewrite Z.mul_1_l. }
  destruct ds as [|d ds]; [congruence|].
  apply Forall_cons in Hall as [Hd Hall].
  apply digit_cases in Hd.
  destruct Hd as [->|Hd].
  - destruct ds as [|d2 ds2].
    + reflexivity.
    + apply Forall_cons in Hall as [Hd2 Hall2].
      apply digit_cases in Hd2.
      repeat (destruct Hd2 as [->|Hd2];
              [apply (Hgo _ eq_refl)|]).
      subst d2. apply (Hgo _ eq_refl).
  - repeat (destruct Hd as [->|Hd]; [apply (Hgo _ eq_refl)|]).
    subst d. apply (Hgo _ eq_refl).
Qed.

(** The text [numberToString] prints for a non-negative integer is a
    non-empty run of decimal digits that spells it. *)
Lemma numberToString_digits (n : Z) :
  0 <= n ->
  exists ds, ds <> [] /\ Forall (fun d => 0 <= d <= 9) ds /\
             JS.mathInt 10 ds = n /\
             JS.chars (numberToString n) = map digit_char ds.
Proof.
  intros Hn. exists (decimal_digits (S (Z.to_nat (Z.log2 n))) n).
  destruct (decimal_digits_spec (S (Z.to_nat (Z.log2 n))) n)
    as (Hne & Hall & Hval).
  - lia.
  - split; [assumption|].
    rewrite Nat2Z.inj_succ, Z2Nat.id by apply Z.log2_nonneg.
    destruct (Z.eq_dec n 0) as [->|Hnz]; [reflexivity|].
    apply Z.log2_spec. lia.
  - repeat split; try assumption.
    unfold numberToString. destruct (Z.ltb_spec n 0) as [?|_]; [lia|].
    apply chars_of_list.
Qed.

Lemma printed_id_parses (n : Z) :
  0 <= n -> JS.parseInt (Some (numberToString n)) = JS.Num n.
Proof.
  intros Hn. destruct (numberToString_digits n Hn) as (ds & ? & ? & <- & E).
  unfold JS.parseInt. cbn [JS.toString]. rewrite E. by apply parseInt_digits.
Qed.

(** X1. A row id printed into a link or a hidden field and read back with
    [parseInt] is the same id, and the printed text, never empty, is
    truthy. *)
Theorem parseInt_numberToString (n : Z) :
  0 <= n < 10 ^ 21 ->
  JS.parseInt (Some (numberToString n)) = JS.Num n /\
  JS.truthy (Some (numberToString n)) = true.
Proof.
  intros [Hn _].
  destruct (numberToString_digits n Hn) as (ds & Hne & Hall & Hval & E).
  split.
  - unfold JS.parseInt. cbn [JS.toString]. rewrite E, <- Hval.
    by apply parseInt_digits.
  - apply truthy_Some. intros Hs. rewrite Hs in E.
    destruct ds; [congruence|discriminate].
Qed.

Lemma parseInt_numberToString_witness :
  JS.parseInt (Some (numberToString 1207)) = JS.Num 1207 /\
  JS.truthy (Some (numberToString 1207)) = true.
Proof.
  apply (parseInt_numberToString 1207). split; [lia|reflexivity].
Defined.

(** *** Escaping *)

(** What the five replacements make of a single character. *)
Lemma flat_map_flat_map {A B C : Type} (f : A -> list B) (g : B -> list C)
    (l : list A) :
  flat_map g (flat_map f l) = flat_map (fun a => flat_map g (f a)) l.
Proof.
  induction l as [|a l IH]; [reflexivity|].
  cbn [flat_map]. rewrite flat_map_app. apply (f_equal (app _)). exact IH.
Qed.

Lemma replaceAll_flat_map {A : Type} (c : ascii) (by_ : string)
    (f : A -> list ascii) (l : list A) :
  replaceAll c by_ (flat_map f l) = flat_map (fun a => replaceAll c by_ (f a)) l.
Proof. apply flat_map_flat_map. Qed.

Lemma flat_map_singleton {A : Type} (l : list A) :
  flat_map (fun a => [a]) l = l.
Proof.
  induction l as [|a l IH]; [reflexivity|]. cbn [flat_map].
  apply (f_equal (cons a)). exact IH.
Qed.

Lemma escapeHtml_chars (s : string) :
  JS.chars (escapeHtml s) =
  flat_map
    (fun c =>
       replaceAll "'" "&#039;"
         (replaceAll "034" "&quot;"
           (replaceAll ">" "&gt;"
             (replaceAll "<" "&lt;" (replaceAll "&" "&amp;" [c])))))
    (JS.chars s).
Proof.
  unfold escapeHtml. rewrite chars_of_list.
  rewrite <- (flat_map_singleton (JS.chars s)) at 1.
  by rewrite !replaceAll_flat_map.
Qed.

(** X2. Whatever the text, its escaped form holds none of the characters
    [<], [>], the double quote and the single quote. *)
Theorem escapeHtml_no_special (s : string) :
  Forall (fun c => html_special c = false) (JS.chars (escapeHtml s)).
Proof.
  rewrite escapeHtml_chars. apply Forall_flat_map, Forall_forall.
  intros c _.
  destruct c as [[] [] [] [] [] [] [] []]; vm_compute;
    repeat constructor.
Qed.

(** X3. A text without [&], [<], [>] and quotes is its own escaped form. *)
Theorem escapeHtml_plain (s : string) :
  Forall (fun c => html_special c = false /\ c <> "&"%char) (JS.chars s) ->
  escapeHtml s = s.
Proof.
  intros H.
  rewrite <- (string_of_list_ascii_of_string (escapeHtml s)).
  rewrite <- (string_of_list_ascii_of_string s) at 2.
  f_equal. change (list_ascii_of_string ?x) with (JS.chars x).
  rewrite escapeHtml_chars.
  rewrite <- (flat_map_singleton (JS.chars s)) at 2.
  induction H as [|c l [Hc Hamp] _ IH]; [reflexivity|].
  cbn [flat_map]. rewrite IH. apply (f_equal (fun x => x ++ _)).
  clear -Hc Hamp. revert Hc Hamp.
  destruct c as [[] [] [] [] [] [] [] []]; vm_compute; intros Hc Hamp;
    try reflexivity; try discriminate; by destruct Hamp.
Qed.

Lemma escapeHtml_plain_witness : escapeHtml "Bot 1 (beta)" = "Bot 1 (beta)".
Proof.
  apply (escapeHtml_plain "Bot 1 (beta)").
  repeat constructor; discriminate.
Defined.

(** *** Short forms *)

Lemma string_of_chars (s : string) : string_of_list_ascii (JS.chars s) = s.
Proof. apply string_of_list_ascii_of_string. Qed.

Lemma string_of_list_app (l l' : list ascii) :
  string_of_list_ascii (l ++ l')
    = (string_of_list_ascii l ++ string_of_list_ascii l')%string.
Proof. induction l as [|c l IH]; simpl; [reflexivity|]. by rewrite IH. Qed.

(** X4. An address of ten characters or more is shown as its first six
    characters, three dots, and its last four; a missing or empty address
    is shown as Anonymous. *)
Theorem formatWalletAddress_shape (first middle last : string) :
  String.length first = 6%nat -> String.length last = 4%nat ->
  formatWalletAddress (Some (first ++ middle ++ last)%string)
    = (first ++ "..." ++ last)%string
  /\ formatWalletAddress None = "Anonymous"
  /\ formatWalletAddress (Some "") = "Anonymous".
Proof.
  intros Hf Hl. split; [|split; reflexivity].
  unfold formatWalletAddress. cbn [JS.truthy JS.toString].
  assert (first ++ middle ++ last <> "")%string as Hne.
  { destruct first; [discriminate|]. discriminate. }
  destruct (String.eqb_spec (first ++ middle ++ last)%string ""); [congruence|].
  cbn [negb]. rewrite !chars_app.
  unfold slice_head, slice_tail.
  rewrite <- !chars_length in *.
  rewrite take_app_length' by (symmetry; exact Hf).
  rewrite !length_app, Hf, Hl.
  replace (6 + (length (JS.chars middle) + 4) - 4)%nat
    with (length (JS.chars first ++ JS.chars middle))
    by (rewrite length_app; lia).
  rewrite (app_assoc (JS.chars first) (JS.chars middle) (JS.chars last)).
  rewrite drop_app_length.
  rewrite !string_of_list_app, !string_of_chars. reflexivity.
Qed.

Lemma formatWalletAddress_shape_witness :
  formatWalletAddress (Some "0x12345678abcdef") = "0x1234...cdef".
Proof.
  apply (formatWalletAddress_shape "0x1234" "5678ab" "cdef"); reflexivity.
Defined.

(** The description of a browse card never exceeds 103 characters: a
    description of at most 100 characters is shown whole, a longer one as
    its first 100 characters and three dots. *)
Lemma shortDescription_bound (description : string) :
  (String.length (shortDescription description) <= 103)%nat /\
  ((String.length description <= 100)%nat ->
   shortDescription description = description) /\
  ((100 < String.length description)%nat ->
   JS.chars (shortDescription description)
     = take 100 (JS.chars description) ++ JS.chars "...").
Proof.
  unfold shortDescription.
  destruct (Z.ltb_spec 100 (Z.of_nat (String.length description))) as [H|H].
  - split; [|split].
    + rewrite <- chars_length, chars_of_list, length_app, length_take.
      change (length (JS.chars "...")) with 3%nat. lia.
    + lia.
    + intros _. apply chars_of_list.
  - split; [lia|]. split; [reflexivity|lia].
Qed.

(** *** Tag lists *)

Lemma split_chars_nonempty (c : ascii) (s : list ascii) :
  split_chars c s <> [].
Proof.
  induction s as [|d s IH]; simpl; [discriminate|].
  destruct (Ascii.eqb d c); [discriminate|].
  destruct (split_chars c s); [congruence|discriminate].
Qed.

Lemma split_chars_app (c : ascii) (a b : list ascii) :
  Forall (fun d => d <> c) a ->
  split_chars c (a ++ c :: b) = a :: split_chars c b.
Proof.
  induction 1 as [|d a Hd _ IH]; simpl.
  - by rewrite Ascii.eqb_refl.
  - destruct (Ascii.eqb_spec d c); [congruence|]. by rewrite IH.
Qed.

Lemma split_chars_whole (c : ascii) (a : list ascii) :
  Forall (fun d => d <> c) a -> split_chars c a = [a].
Proof.
  induction 1 as [|d a Hd _ IH]; simpl; [reflexivity|].
  destruct (Ascii.eqb_spec d c); [congruence|]. by rewrite IH.
Qed.

(** Joining names with commas and splitting at the commas gives the names
    back, when there is a name and no name holds a comma. *)
Lemma split_join (names : list string) :
  names <> [] ->
  Forall (fun n => Forall (fun d => d <> ","%char) (JS.chars n)) names ->
  split "," (join_with "," names) = names.
Proof.
  intros Hne Hall. unfold split.
  induction Hall as [|n names Hn Hall IH]; [congruence|].
  destruct names as [|m names].
  - simpl. rewrite split_chars_whole by assumption.
    simpl. by rewrite string_of_chars.
  - change (join_with "," (n :: m :: names))
      with (n ++ "," ++ join_with "," (m :: names))%string.
    rewrite !chars_app. change (JS.chars ",") with [","%char].
    change ([","%char] ++ ?x) with (","%char :: x).
    rewrite split_chars_app by assumption.
    cbn [map]. rewrite string_of_chars. f_equal.
    apply IH. discriminate.
Qed.

(** X5. The tag spans of a browse card are the escaped tag names, one span
    per name in the order of the aggregate, when no name holds a comma and
    the joined text is not empty. *)
Theorem tag_spans_of_group_concat (names : list string) :
  names <> [] ->
  Forall (fun n => Forall (fun d => d <> ","%char) (JS.chars n)) names ->
  join_with "," names <> "" ->
  tag_spans (group_concat names) = map escapeHtml names.
Proof.
  intros Hne Hall Hjoin. unfold tag_spans, group_concat.
  destruct names as [|n names]; [congruence|].
  cbn [JS.truthy JS.toString].
  destruct (String.eqb_spec (join_with "," (n :: names)) ""); [congruence|].
  cbn [negb]. by rewrite split_join.
Qed.

Lemma tag_spans_of_group_concat_witness :
  tag_spans (group_concat ["nlp"; "chat<bot>"]) = ["nlp"; "chat&lt;bot&gt;"].
Proof.
  apply (tag_spans_of_group_concat ["nlp"; "chat<bot>"]).
  - discriminate.
  - repeat constructor; discriminate.
  - discriminate.
Defined.

(** *** Stars *)

Lemma floor_in_range (rating : Q) :
  (0 <= rating)%Q -> (rating <= 5)%Q -> 0 <= Qfloor rating <= 5.
Proof.
  intros H0 H5. split.
  - apply (Qfloor_resp_le 0 rating) in H0. exact H0.
  - apply (Qfloor_resp_le rating 5) in H5. exact H5.
Qed.

(** The stars of a rating between 0 and 5, spelled out. *)
Lemma stars_in_range (rating : Q) :
  (0 <= rating)%Q -> (rating <= 5)%Q ->
  exists (half : list star) (empty : nat),
    fst (generateStarDisplay rating false)
      = replicate (Z.to_nat (Qfloor rating)) FilledStar ++ half
        ++ replicate empty EmptyStar /\
    (half = [] \/ half = [HalfStar]) /\
    (Z.to_nat (Qfloor rating) + length half + empty = 5)%nat.
Proof.
  intros H0 H5. pose proof (floor_in_range rating H0 H5) as [Hf0 Hf5].
  unfold generateStarDisplay, fractional_part. cbn [fst].
  assert (Qle_bool 0 rating = true) as -> by (by apply Qle_bool_iff).
  set (f := Qfloor rating) in *.
  destruct (Qle_bool (1 # 2) (rating - inject_Z f)) eqn:E.
  - apply Qle_bool_iff in E.
    assert (f <= 4).
    { destruct (Z_le_gt_dec f 4) as [?|Hgt]; [assumption|].
      assert (f = 5) as Hf by lia. rewrite Hf in E.
      change (inject_Z 5) with 5%Q in E. lra. }
    exists [HalfStar], (Z.to_nat (5 - f - 1)).
    split; [reflexivity|]. split; [by right|]. simpl. lia.
  - exists [], (Z.to_nat (5 - f - 0)).
    split; [reflexivity|]. split; [by left|]. simpl. lia.
Qed.

(** X6. For a rating between 0 and 5 the display has exactly five stars:
    as many filled ones as the rating has whole units, a half star when the
    remainder reaches one half, and empty ones for the rest. *)
Theorem star_display_five (rating : Q) :
  (0 <= rating)%Q -> (rating <= 5)%Q ->
  let stars := fst (generateStarDisplay rating false) in
  length stars = 5%nat /\
  length (List.filter (fun s => match s with FilledStar => true | _ => false end)
                      stars)
    = Z.to_nat (Qfloor rating).
Proof.
  intros H0 H5.
  destruct (stars_in_range rating H0 H5) as (half & empty & E & Hh & Hsum).
  cbv zeta. rewrite E. split.
  - rewrite !length_app, !length_replicate. lia.
  - rewrite !List.filter_app, !length_app.
    assert (forall k, List.filter
              (fun s => match s with FilledStar => true | _ => false end)
              (replicate k FilledStar) = replicate k FilledStar) as ->.
    { induction k as [|k IH]; simpl; [reflexivity|]. by rewrite IH. }
    assert (forall k, List.filter
              (fun s => match s with FilledStar => true | _ => false end)
              (replicate k EmptyStar) = []) as ->.
    { induction k as [|k IH]; simpl; [reflexivity|]. exact IH. }
    rewrite length_replicate. destruct Hh as [->| ->]; simpl; lia.
Qed.

Lemma star_display_five_witness :
  length (fst (generateStarDisplay (9 # 2) false)) = 5%nat /\
  length (List.filter
            (fun s => match s with FilledStar => true | _ => false end)
            (fst (generateStarDisplay (9 # 2) false))) = 4%nat.
Proof.
  apply (star_display_five (9 # 2)); unfold Qle; simpl; lia.
Defined.

(** *** The ratings table *)

Lemma submit_agent_ratings (b : submission) (now : Z) (d : store) :
  ratings (snd (submit_agent b now d)) = ratings d /\
  users (snd (submit_agent b now d)) = users d /\
  seq_ratings (snd (submit_agent b now d)) = seq_ratings d.
Proof.
  unfold submit_agent, insert_agent. simpl. by destruct (lineage b).
Qed.

(** A request leaves the ratings table as it was or appends one row, whose
    stars lie in 1..5 and whose wallet is [NULL]. *)
Lemma ratings_step (e : env) (r : request) (st : state) :
  exists added,
    ratings (db (fst (handle e r st))) = ratings (db st) ++ added /\
    (length added <= 1)%nat /\
    Forall (fun x => 1 <= Rating.stars x <= 5
                     /\ Rating.wallet_address x = None
                     /\ Rating.id x = seq_ratings (db st) + 1) added.
Proof.
  assert (Hsame : forall st', ratings (db st') = ratings (db st) ->
    exists added, ratings (db st') = ratings (db st) ++ added /\
      (length added <= 1)%nat /\
      Forall (fun x => 1 <= Rating.stars x <= 5
                       /\ Rating.wallet_address x = None
                       /\ Rating.id x = seq_ratings (db st) + 1) added).
  { intros st' H. exists []. rewrite app_nil_r. repeat split; auto. }
  destruct r as [w sg| | |c s o|i|i|a s c|b]; simpl; try by apply Hsame.
  - apply Hsame. unfold post_login. by destruct (JS.truthy w).
  - apply Hsame. unfold post_logout. by destruct (JS.truthy (x_session_id e)).
  - destruct (rating_rejected a s) eqn:Hrej.
    + apply Hsame. unfold post_rate. by rewrite Hrej.
    + destruct (accepted_rating_stored a s c (now e) st Hrej)
        as (ai & si & _ & _ & Hs & Heq).
      eexists. split; [exact Heq|]. split; [simpl; lia|].
      constructor; [|constructor]. simpl. auto.
  - apply Hsame. destruct (valid_submission b) eqn:Hv.
    + rewrite post_submit_valid by assumption. simpl.
      apply submit_agent_ratings.
    + by rewrite post_submit_invalid.
Qed.

Lemma reachable_wf_ratings (st : state) : reachable st -> wf_ratings (db st).
Proof.
  induction 1 as [|e r st _ IH]; [constructor|].
  destruct (ratings_step e r st) as (added & Heq & _ & Hadd).
  unfold wf_ratings in *. rewrite Heq.
  apply Forall_app. split; [exact IH|].
  eapply Forall_impl; [exact Hadd|]. simpl. tauto.
Qed.

(** X7. No sequence of requests removes or alters a rating row: the rows
    present stay where they are, and every row added since has stars in
    1..5 and a [NULL] wallet; at most one row is added per request. *)
Theorem ratings_append_only (rs : list (env * request)) (st : state) :
  exists added,
    ratings (db (run rs st)) = ratings (db st) ++ added /\
    (length added <= length rs)%nat /\
    Forall (fun x => 1 <= Rating.stars x <= 5
                     /\ Rating.wallet_address x = None) added.
Proof.
  revert st. induction rs as [|[e r] rs IH]; intros st.
  - exists []. simpl. rewrite app_nil_r. repeat split; auto.
  - simpl. destruct (IH (fst (handle e r st))) as (later & Hl & Hn & Hall).
    destruct (ratings_step e r st) as (first & Hf & Hn1 & Hall1).
    exists (first ++ later). rewrite Hl, Hf, app_assoc.
    split; [reflexivity|]. split; [rewrite length_app; lia|].
    apply Forall_app. split; [|exact Hall].
    eapply Forall_impl; [exact Hall1|]. simpl. tauto.
Qed.

Lemma sumZ_bounds (l : list Z) :
  Forall (fun x => 1 <= x <= 5) l ->
  Z.of_nat (length l) <= sumZ l <= 5 * Z.of_nat (length l).
Proof.
  induction 1 as [|x l Hx _ IH]; simpl; [lia|].
  unfold sumZ in *. simpl. lia.
Qed.

Lemma coalesce_avg_bounds (l : list Z) :
  Forall (fun x => 1 <= x <= 5) l -> l <> [] ->
  (1 <= coalesce_avg l)%Q /\ (coalesce_avg l <= 5)%Q.
Proof.
  intros Hall Hne. pose proof (sumZ_bounds l Hall) as [Hlo Hhi].
  destruct l as [|x l]; [congruence|]. unfold coalesce_avg.
  set (n := Z.of_nat (length (x :: l))) in *.
  assert (Hn : 0 < n) by (unfold n; simpl; lia).
  assert (HnQ : (0 < inject_Z n)%Q).
  { change 0%Q with (inject_Z 0). by rewrite <- Zlt_Qlt. }
  split.
  - apply Qle_shift_div_l; [exact HnQ|].
    rewrite Qmult_1_l. by rewrite <- Zle_Qle.
  - apply Qle_shift_div_r; [exact HnQ|].
    change 5%Q with (inject_Z 5). rewrite <- inject_Z_mult.
    by rewrite <- Zle_Qle.
Qed.

(** In a state the handlers can produce, the aggregates of a browse row are
    those of a list of stars in 1..5. *)
Lemma browse_row_stars (category search sort : option string)
    (st : state) (row : browse_row) :
  reachable st ->
  row ∈ select_browse category search sort (db st) ->
  exists l, Forall (fun x => 1 <= x <= 5) l /\
            avg_rating row = coalesce_avg l /\
            rating_count row = Z.of_nat (length l).
Proof.
  intros Hr Hrow.
  destruct (browse_aggregates_reachable _ _ _ _ _ Hr Hrow) as (Havg & Hcnt & _).
  pose proof (reachable_wf_ratings st Hr) as Hwf.
  exists (map Rating.stars (ratings_for (Agent.id (agent row)) (db st))).
  split; [|split; [exact Havg|by rewrite length_map]].
  apply Forall_fmap. unfold ratings_for.
  apply Forall_forall. intros x Hx.
  apply list_elem_of_In, filter_In in Hx as [Hx _].
  unfold wf_ratings in Hwf. rewrite Forall_forall in Hwf.
  apply list_elem_of_In in Hx. by apply Hwf in Hx as [? _].
Qed.

(** X8. In every state the handlers can produce, the average shown for an
    agent is 0 when it has no rating and lies between 1 and 5 otherwise. *)
Theorem browse_average_in_range (category search sort : option string)
    (st : state) (row : browse_row) :
  reachable st ->
  row ∈ select_browse category search sort (db st) ->
  (rating_count row = 0 /\ avg_rating row = 0%Q) \/
  (0 < rating_count row /\ (1 <= avg_rating row)%Q
   /\ (avg_rating row <= 5)%Q).
Proof.
  intros Hr Hrow.
  destruct (browse_row_stars _ _ _ _ _ Hr Hrow) as (l & Hl & -> & ->).
  destruct l as [|x l].
  - left. split; reflexivity.
  - right. split; [simpl; lia|].
    apply coalesce_avg_bounds; [exact Hl|discriminate].
Qed.

Lemma rated_state_reachable :
  reachable
    (run [(mkEnv None 100 "s",
           PostSubmit (mkSubmission (Some "Bot1") (Some "d") (Some "Other")
                                    (Some "http://x.com") None None None None));
          (mkEnv None 101 "s", PostRate (Some "1") (Some "4") None)] init).
Proof. apply reachable_run, reachable_init. Qed.

Lemma browse_average_in_range_witness :
  let st :=
    run [(mkEnv None 100 "s",
          PostSubmit (mkSubmission (Some "Bot1") (Some "d") (Some "Other")
                                   (Some "http://x.com") None None None None));
         (mkEnv None 101 "s", PostRate (Some "1") (Some "4") None)] init in
  exists row,
    row ∈ select_browse None None None (db st) /\
    ((rating_count row = 0 /\ avg_rating row = 0%Q) \/
     (0 < rating_count row /\ (1 <= avg_rating row)%Q
      /\ (avg_rating row <= 5)%Q)).
Proof.
  intros st.
  assert (Hin : mkBrowseRow
                  (Agent.mk 1 "Bot1" "d" "Other" (Some "http://x.com")
                            None None None 0 false 100)
                  None (4 # 1)%Q 1 None
                ∈ select_browse None None None (db st)).
  { vm_compute. left. }
  eexists. split; [exact Hin|].
  exact (browse_average_in_range None None None st _
           rated_state_reachable Hin).
Defined.

(** X9. In every state the handlers can produce, each browse card shows
    exactly five stars. *)
Theorem card_stars_five (category search sort : option string)
    (st : state) (row : browse_row) :
  reachable st ->
  row ∈ select_browse category search sort (db st) ->
  length (fst (card_stars row)) = 5%nat.
Proof.
  intros Hr Hrow. unfold card_stars.
  destruct (browse_row_stars _ _ _ _ _ Hr Hrow) as (l & Hl & -> & _).
  assert (H05 : (0 <= coalesce_avg l)%Q /\ (coalesce_avg l <= 5)%Q).
  { destruct l as [|x l]; [split; [apply Qle_refl|discriminate]|].
    destruct (coalesce_avg_bounds (x :: l) Hl ltac:(discriminate)).
    split; [lra|assumption]. }
  destruct H05 as [H0 H5].
  destruct (stars_in_range _ H0 H5) as (half & empty & -> & _ & Hsum).
  rewrite !length_app, !length_replicate. lia.
Qed.

Lemma card_stars_five_witness :
  let st :=
    run [(mkEnv None 100 "s",
          PostSubmit (mkSubmission (Some "Bot1") (Some "d") (Some "Other")
                                   (Some "http://x.com") None None None None));
         (mkEnv None 101 "s", PostRate (Some "1") (Some "4") None)] init in
  length (fst (card_stars
                 (mkBrowseRow
                    (Agent.mk 1 "Bot1" "d" "Other" (Some "http://x.com")
                              None None None 0 false 100)
                    None (4 # 1)%Q 1 None))) = 5%nat.
Proof.
  intros st.
  apply (card_stars_five None None None st).
  - exact rated_state_reachable.
  - vm_compute. left.
Defined.

(** *** Sessions and users *)

(** X10. A login with a non-empty wallet opens a session: a later request
    that carries the returned session id is resolved to that wallet, and
    its profile is the row the login wrote (default tier, no handles, both
    timestamps at the time of the login). *)
Theorem login_then_profile (w : string) (now : Z) (fresh : string)
    (st : state) :
  w <> "" -> fresh <> "" ->
  let st' := fst (post_login (Some w) now fresh st) in
  snd (post_login (Some w) now fresh st) = Send 200 (LoginBody fresh w) /\
  checkSession (Some fresh) st' = Some w /\
  get_profile (checkSession (Some fresh) st') st'
    = Send 200
        (ProfileBody
           (Some (User.mk (seq_users (db st) + 1) w "creator" None None
                          now now)) w).
Proof.
  intros Hw Hf. simpl.
  assert (Hres : checkSession (Some fresh)
                   (fst (post_login (Some w) now fresh st)) = Some w).
  { unfold checkSession, post_login. simpl.
    destruct (String.eqb_spec w ""); [congruence|].
    destruct (String.eqb_spec fresh ""); [congruence|]. simpl.
    apply lookup_insert_eq. }
  split; [|split].
  - unfold post_login. simpl. by destruct (String.eqb_spec w "").
  - exact Hres.
  - rewrite Hres. unfold get_profile. by rewrite login_user_row.
Qed.

Lemma login_then_profile_witness :
  let st' := fst (post_login (Some "0xabc") 100 "s1" init) in
  checkSession (Some "s1") st' = Some "0xabc" /\
  get_profile (checkSession (Some "s1") st') st'
    = Send 200
        (ProfileBody (Some (User.mk 1 "0xabc" "creator" None None 100 100))
                     "0xabc").
Proof.
  intros st'.
  exact (proj2 (login_then_profile "0xabc" 100 "s1" init
                  ltac:(discriminate) ltac:(discriminate))).
Defined.

(** X11. A logout revokes the session it names and nothing else: that id
    no longer resolves, every other id resolves as before, the database is
    untouched, the answer is always success, and a second logout changes
    nothing more. *)
Theorem logout_revokes (t : string) (st : state) :
  let st' := fst (post_logout (Some t) st) in
  snd (post_logout (Some t) st) = Send 200 SuccessBody /\
  checkSession (Some t) st' = None /\
  (forall t', t' <> t ->
              checkSession (Some t') st' = checkSession (Some t') st) /\
  db st' = db st /\
  fst (post_logout (Some t) st') = st'.
Proof.
  simpl. unfold post_logout, checkSession. simpl.
  destruct (String.eqb_spec t "") as [->|Ht]; simpl.
  - by repeat split.
  - split; [reflexivity|]. split; [apply lookup_delete_eq|].
    split; [|split; [reflexivity|]].
    + intros t' Hne. destruct (negb (t' =? "")%string); [|reflexivity].
      by apply lookup_delete_ne.
    + f_equal. apply delete_delete_eq.
Qed.

(** A request leaves the users table alone or, when it is a login with a
    wallet, replaces the row of that wallet. *)
Lemma handle_users (e : env) (r : request) (st : state) :
  users (db (fst (handle e r st))) = users (db st)
  /\ seq_users (db (fst (handle e r st))) = seq_users (db st)
  \/ exists w, w <> "" /\ db (fst (handle e r st))
                          = insert_or_replace_user w (now e) (db st).
Proof.
  destruct r as [w sg| | |c s o|i|i|a s c|b]; simpl; try (left; by split).
  - unfold post_login. destruct w as [w|]; simpl; [|left; by split].
    destruct (String.eqb_spec w ""); simpl; [left; by split|].
    right. exists w. by split.
  - left. unfold post_logout. by destruct (JS.truthy (x_session_id e)).
  - left. unfold post_rate. destruct (rating_rejected a s); [by split|].
    destruct (JS.parseInt a); [by split|].
    destruct (JS.parseInt s); [by split|].
    unfold insert_rating.
    destruct (negb _); [by split|]. by destruct (existsb _ _).
  - left. destruct (valid_submission b) eqn:Hv.
    + rewrite post_submit_valid by assumption. simpl.
      unfold submit_agent, insert_agent. simpl. by destruct (lineage b).
    + by rewrite post_submit_invalid.
Qed.

Lemma handle_sessions_other (e : env) (r : request) (st : state) :
  (forall w sg, r <> PostLogin w sg) -> r <> PostLogout ->
  sessions (fst (handle e r st)) = sessions st.
Proof.
  intros Hl Ho. destruct r as [w sg| | |c s o|i|i|a s c|b]; simpl;
    try reflexivity.
  - by exfalso; eapply Hl.
  - congruence.
  - unfold post_rate. destruct (rating_rejected a s); [reflexivity|].
    destruct (JS.parseInt a); [reflexivity|].
    destruct (JS.parseInt s); [reflexivity|].
    by destruct (insert_rating _ _ _ _ _).
  - unfold post_submit. destruct (negb (fields_present b)); [reflexivity|].
    by destruct (negb (link_well_formed b)).
Qed.

Lemma wallets_insert_or_replace (w : string) (now : Z) (d : store) :
  wallets (insert_or_replace_user w now d)
    = filter (fun x => x <> w) (wallets d) ++ [w].
Proof.
  unfold wallets, insert_or_replace_user. simpl.
  rewrite map_app. simpl. f_equal.
  induction (users d) as [|u l IH]; [reflexivity|].
  cbn [map]. rewrite !filter_cons. simpl.
  destruct (decide (User.wallet_address u <> w)); simpl; by rewrite IH.
Qed.

(** What the unique wallet column and the primary key guarantee of
    [users]. *)
Lemma users_unique_step (w : string) (now : Z) (d : store) :
  NoDup (wallets d) ->
  NoDup (map User.id (users d)) ->
  Forall (fun u => 1 <= User.id u <= seq_users d) (users d) ->
  0 <= seq_users d ->
  let d' := insert_or_replace_user w now d in
  NoDup (wallets d') /\ NoDup (map User.id (users d')) /\
  Forall (fun u => 1 <= User.id u <= seq_users d') (users d') /\
  0 <= seq_users d'.
Proof.
  intros Hw Hid Hall Hseq. simpl.
  split; [|split; [|split]].
  - rewrite wallets_insert_or_replace. apply NoDup_app. split.
    + by apply NoDup_filter.
    + split; [|apply NoDup_singleton].
      intros x Hx Hx'. apply list_elem_of_singleton in Hx'. subst x.
      apply list_elem_of_filter in Hx as [Hx _]. congruence.
  - unfold insert_or_replace_user. simpl. rewrite map_app. simpl.
    apply NoDup_app. split; [|split; [|apply NoDup_singleton]].
    + apply (NoDup_fmap_2_strong User.id).
      * intros x y Hx Hy Hxy.
        apply list_elem_of_filter in Hx as [_ Hx].
        apply list_elem_of_filter in Hy as [_ Hy].
        clear -Hid Hx Hy Hxy.
        induction (users d) as [|u l IH]; [inversion Hx|].
        cbn [map] in Hid. apply NoDup_cons in Hid as [Hu Hl].
        apply elem_of_cons in Hx as [->|Hx];
          apply elem_of_cons in Hy as [->|Hy]; try reflexivity.
        -- exfalso. apply Hu. rewrite Hxy. by apply list_elem_of_fmap_2.
        -- exfalso. apply Hu. rewrite <- Hxy. by apply list_elem_of_fmap_2.
        -- by apply IH.
      * apply NoDup_filter.
        clear -Hid. induction (users d) as [|u l IH]; [constructor|].
        cbn [map] in Hid. apply NoDup_cons in Hid as [Hu Hl].
        apply NoDup_cons. split; [|by apply IH].
        intros Hin. apply Hu. by apply list_elem_of_fmap_2.
    + intros x Hx Hx'. apply list_elem_of_singleton in Hx'. subst x.
      apply list_elem_of_fmap in Hx as (u & Hu & Hin).
      apply list_elem_of_filter in Hin as [_ Hin].
      rewrite Forall_forall in Hall. specialize (Hall u Hin). lia.
  - unfold insert_or_replace_user. simpl. apply Forall_app. split.
    + apply Forall_forall. intros u Hu.
      apply list_elem_of_filter in Hu as [_ Hu].
      rewrite Forall_forall in Hall. specialize (Hall u Hu). simpl in *. lia.
    + constructor; [simpl; lia|constructor].
  - unfold insert_or_replace_user. simpl. lia.
Qed.

(** X12. In every state the handlers can produce, no two user rows hold the
    same wallet address or the same id, however often a wallet logs in. *)
Theorem users_unique (st : state) :
  reachable st ->
  NoDup (wallets (db st)) /\ NoDup (map User.id (users (db st))).
Proof.
  intros H.
  enough (NoDup (wallets (db st)) /\ NoDup (map User.id (users (db st))) /\
          Forall (fun u => 1 <= User.id u <= seq_users (db st)) (users (db st))
          /\ 0 <= seq_users (db st)) as (? & ? & _); [by split|].
  induction H as [|e r st _ (Hw & Hid & Hall & Hseq)].
  - simpl. repeat split; try constructor. lia.
  - destruct (handle_users e r st) as [[Hu Hs]|(w & _ & Heq)].
    + unfold wallets in *. rewrite Hu, Hs. by repeat split.
    + rewrite Heq. by apply users_unique_step.
Qed.

Lemma users_unique_witness :
  let st :=
    run [(mkEnv None 100 "s1", PostLogin (Some "0xabc") None);
         (mkEnv None 200 "s2", PostLogin (Some "0xdef") None);
         (mkEnv None 300 "s3", PostLogin (Some "0xabc") None)] init in
  NoDup (wallets (db st)) /\ NoDup (map User.id (users (db st))).
Proof.
  intros st. apply (users_unique st). apply reachable_run, reachable_init.
Defined.

Lemma select_user_found (w : string) (d : store) :
  w ∈ wallets d ->
  exists u, select_user w d = Some u /\ User.wallet_address u = w.
Proof.
  unfold wallets, select_user. induction (users d) as [|u l IH]; simpl.
  - intros H. inversion H.
  - intros H. destruct (decide (User.wallet_address u = w)) as [E|E].
    + exists u. by rewrite bool_decide_eq_true_2.
    + rewrite bool_decide_eq_false_2 by assumption. apply IH.
      apply elem_of_cons in H as [H|H]; [congruence|assumption].
Qed.

Lemma sessions_have_users (st : state) :
  reachable st ->
  forall t w, sessions st !! t = Some w -> w ∈ wallets (db st).
Proof.
  induction 1 as [|e r st _ IH]; intros t w.
  - simpl. by rewrite lookup_empty.
  - assert (Hmono : forall x, x ∈ wallets (db st) ->
                              x ∈ wallets (db (fst (handle e r st)))).
    { intros x Hx. destruct (handle_users e r st) as [[Hu _]|(w' & _ & Heq)].
      - unfold wallets in *. by rewrite Hu.
      - rewrite Heq, wallets_insert_or_replace.
        destruct (decide (x = w')) as [->|Hne].
        + apply elem_of_app. right. apply list_elem_of_here.
        + apply elem_of_app. left. by apply list_elem_of_filter. }
    destruct r as [w' sg| | |c s o|i|i|a s c|b];
      try (rewrite handle_sessions_other by discriminate;
           intros Ht; apply (Hmono w), (IH t w Ht)).
    + simpl. unfold post_login. destruct w' as [w'|]; simpl;
        [|intros Ht; apply (IH t w Ht)].
      destruct (String.eqb_spec w' ""); simpl;
        [intros Ht; apply (IH t w Ht)|].
      rewrite lookup_insert. destruct (decide (fresh e = t)) as [_|_].
      * intros [= <-]. rewrite wallets_insert_or_replace.
        apply elem_of_app. right. apply list_elem_of_here.
      * intros Ht. specialize (IH t w Ht).
        rewrite wallets_insert_or_replace.
        destruct (decide (w = w')) as [->|Hne].
        -- apply elem_of_app. right. apply list_elem_of_here.
        -- apply elem_of_app. left. by apply list_elem_of_filter.
    + simpl. unfold post_logout. destruct (JS.truthy (x_session_id e)); simpl.
      * intros Ht. apply (IH t w).
        apply lookup_delete_Some in Ht as [_ Ht]. exact Ht.
      * apply IH.
Qed.

(** X13. In every state the handlers can produce, a request whose session
    id resolves gets the stored row of its wallet as profile: the lookup
    never comes back empty. *)
Theorem profile_of_session_found (sessionId : option string) (w : string)
    (st : state) :
  reachable st ->
  checkSession sessionId st = Some w ->
  exists u, get_profile (checkSession sessionId st) st
              = Send 200 (ProfileBody (Some u) w)
            /\ User.wallet_address u = w.
Proof.
  intros Hr Hs. rewrite Hs. unfold get_profile.
  unfold checkSession in Hs. destruct (JS.truthy sessionId); [|discriminate].
  pose proof (sessions_have_users st Hr _ _ Hs) as Hin.
  destruct (select_user_found w (db st) Hin) as (u & -> & Hu).
  by exists u.
Qed.

Lemma profile_of_session_found_witness :
  let st :=
    run [(mkEnv None 100 "s1", PostLogin (Some "0xabc") None);
         (mkEnv None 200 "s2", PostLogin (Some "0xdef") None)] init in
  exists u, get_profile (checkSession (Some "s1") st) st
              = Send 200 (ProfileBody (Some u) "0xabc")
            /\ User.wallet_address u = "0xabc".
Proof.
  intros st.
  apply (profile_of_session_found (Some "s1") "0xabc" st).
  - apply reachable_run, reachable_init.
  - vm_compute. reflexivity.
Defined.

(** *** Links *)

Lemma in_class_within (allowed k : RegExp.class) (c : ascii) :
  class_within allowed k = true ->
  RegExp.in_class k c = true -> RegExp.in_class allowed c = true.
Proof.
  unfold class_within, RegExp.in_class. intros Hk Hc.
  apply existsb_exists in Hc as ([lo hi] & Hin & Hc).
  rewrite forallb_forall in Hk. specialize (Hk _ Hin). simpl in Hk.
  apply existsb_exists in Hk as ([lo' hi'] & Hin' & Hk).
  apply existsb_exists. exists (lo', hi'). split; [assumption|].
  apply andb_true_iff in Hc as [H1 H2]. apply andb_true_iff in Hk as [H3 H4].
  apply andb_true_iff. rewrite !Z.leb_le in *. lia.
Qed.

Lemma matches_within (allowed : RegExp.class) (r : RegExp.t)
    (s : list ascii) :
  classes_within allowed r = true -> matches r s ->
  Forall (fun c => RegExp.in_class allowed c = true) s.
Proof.
  intros Hr Hm. induction Hm as [|k c Hc|r1 r2 s1 s2 _ IH1 _ IH2|r1 r2 s _ IH
                                |r1 r2 s _ IH|r|r s1 s2 _ IH1 _ IH2];
    simpl in Hr; try apply andb_true_iff in Hr as [Hr1 Hr2].
  - constructor.
  - constructor; [|constructor]. by eapply in_class_within.
  - apply Forall_app. split; [by apply IH1|by apply IH2].
  - by apply IH.
  - by apply IH.
  - constructor.
  - apply Forall_app. split; [by apply IH1|by apply IH2].
Qed.

(** X14. A link that passes the check of [POST /submit] consists of
    digits, letters, underscores, spaces and the characters [- . / :] only;
    so a link with a question mark, a hash sign, an at-sign, an
    ampersand or a quote is refused. *)
Theorem accepted_link_alphabet (l : string) :
  RegExp.test urlPattern l = true ->
  Forall (fun c => link_char c = true) (JS.chars l).
Proof.
  intros H. apply test_matches in H.
  apply (matches_within link_alphabet urlPattern); [|exact H].
  vm_compute. reflexivity.
Qed.

Lemma accepted_link_alphabet_witness :
  Forall (fun c => link_char c = true) (JS.chars "https://x.com/a_b").
Proof.
  apply (accepted_link_alphabet "https://x.com/a_b"). vm_compute. reflexivity.
Defined.

(** *** The agents table *)

Lemma truthy_true (v : option string) :
  JS.truthy v = true -> JS.toString v <> "".
Proof.
  destruct v as [s|]; simpl; [|discriminate].
  destruct (String.eqb_spec s ""); [discriminate|auto].
Qed.

Lemma bump_fields (i n : Z) (a : Agent.t) :
  without_fork_count (bump i n a) = without_fork_count a.
Proof. unfold bump. by destruct (Agent.id a =? i). Qed.

Lemma agent_checked_bump (i n : Z) (a : Agent.t) :
  agent_checked a -> agent_checked (bump i n a).
Proof. unfold bump. by destruct (Agent.id a =? i). Qed.

Lemma agents_checked_step (e : env) (r : request) (st : state) :
  Forall agent_checked (agents (db st)) ->
  Forall agent_checked (agents (db (fst (handle e r st)))).
Proof.
  intros IH.
  destruct r as [w sg| | |c s o|i|i|a s c|b];
    try (match goal with
         | |- context [handle e ?r st] =>
             destruct (handle_agents_other e r st) as [Ha _];
             [discriminate|]
         end; rewrite Ha; exact IH).
  simpl. destruct (valid_submission b) eqn:Hv.
  - rewrite post_submit_valid by assumption. simpl.
    rewrite submit_agent_agents.
    assert (Hrow : agent_checked (submitted_row b (now e) (db st))).
    { unfold valid_submission, fields_present, link_well_formed in Hv.
      repeat (apply andb_true_iff in Hv as [Hv ?]).
      unfold agent_checked, submitted_row. simpl.
      repeat split; try by apply truthy_true.
      exists (JS.toString (link b)). repeat split; [by apply truthy_true|].
      assumption. }
    assert (Hall : Forall agent_checked
                     (agents (db st) ++ [submitted_row b (now e) (db st)])).
    { apply Forall_app. split; [exact IH|].
      constructor; [exact Hrow|constructor]. }
    destruct (lineage b) as [i|]; [|exact Hall].
    apply Forall_fmap. eapply Forall_impl; [exact Hall|].
    intros x Hx. by apply agent_checked_bump.
  - by rewrite post_submit_invalid.
Qed.

(** X15. In every state the handlers can produce, every agent row has a
    non-empty name, description and category and a link that passes the
    URL check: what [POST /submit] refuses never reaches the table. *)
Theorem stored_agents_checked (st : state) (a : Agent.t) :
  reachable st -> a ∈ agents (db st) ->
  Agent.name a <> "" /\ Agent.description a <> "" /\
  Agent.category a <> "" /\
  exists l, Agent.link a = Some l /\ RegExp.test urlPattern l = true.
Proof.
  intros Hr Ha.
  assert (Hall : Forall agent_checked (agents (db st))).
  { clear Ha. induction Hr as [|e r st _ IH]; [constructor|].
    by apply agents_checked_step. }
  rewrite Forall_forall in Hall.
  destruct (Hall a Ha) as (Hn & Hd & Hc & l & Hl & _ & Hurl).
  repeat split; try assumption. by exists l.
Qed.

Lemma stored_agents_checked_witness :
  Agent.name bot1 <> "" /\ Agent.description bot1 <> "" /\
  Agent.category bot1 <> "" /\
  exists l, Agent.link bot1 = Some l /\ RegExp.test urlPattern l = true.
Proof.
  apply (stored_agents_checked
           (run [(mkEnv None 100 "s",
                  PostSubmit (mkSubmission (Some "Bot1") (Some "d")
                                (Some "Other") (Some "http://x.com")
                                None None None None));
                 (mkEnv None 101 "s",
                  PostSubmit (mkSubmission (Some "") (Some "d")
                                (Some "Other") (Some "http://x.com")
                                None None None None))] init) bot1).
  - apply reachable_run, reachable_init.
  - vm_compute. left.
Defined.

Lemma seqZ_snoc (first : Z) (count : nat) :
  seqZ first (S count) = seqZ first count ++ [first + Z.of_nat count].
Proof.
  revert first. induction count as [|count IH]; intros first.
  - simpl. f_equal. lia.
  - change (seqZ first (S (S count)))
      with (first :: seqZ (first + 1) (S count)).
    rewrite IH. simpl. do 3 f_equal. lia.
Qed.

(** X16. In every state the handlers can produce, the agents carry the ids
    1, 2, 3, ... in the order of their submission, and the sequence counter
    equals the number of rows: no id is skipped or reused and no row is
    ever removed. *)
Theorem agent_ids_sequential (st : state) :
  reachable st ->
  map Agent.id (agents (db st)) = seqZ 1 (length (agents (db st))) /\
  seq_agents (db st) = Z.of_nat (length (agents (db st))).
Proof.
  induction 1 as [|e r st _ [IHi IHs]]; [by split|].
  destruct r as [w sg| | |c s o|i|i|a s c|b];
    try (match goal with
         | |- context [handle e ?r st] =>
             destruct (handle_agents_other e r st) as [Ha Hs];
             [discriminate|]
         end; rewrite Ha, Hs; by split).
  simpl. destruct (valid_submission b) eqn:Hv.
  - rewrite post_submit_valid by assumption. simpl.
    rewrite submit_agent_seq, submit_agent_agents.
    assert (Hi : map Agent.id (agents (db st)
                               ++ [submitted_row b (now e) (db st)])
                 = seqZ 1 (length (agents (db st)
                                   ++ [submitted_row b (now e) (db st)]))).
    { rewrite map_app, length_app. simpl.
      rewrite Nat.add_1_r, seqZ_snoc, IHi, IHs. do 2 f_equal. lia. }
    destruct (lineage b) as [i|].
    + rewrite map_id_bump, length_map, Hi. split; [reflexivity|].
      rewrite length_app. simpl. lia.
    + rewrite Hi. split; [reflexivity|]. rewrite length_app. simpl. lia.
  - rewrite post_submit_invalid by assumption. by split.
Qed.

Lemma agent_ids_sequential_witness :
  let b n := mkSubmission (Some n) (Some "d") (Some "Other")
                          (Some "http://x.com") None None None None in
  let e := mkEnv None 100 "s" in
  let st := run [(e, PostSubmit (b "A")); (e, PostSubmit (b ""));
                 (e, PostSubmit (b "B")); (e, PostSubmit (b "C"))] init in
  map Agent.id (agents (db st)) = [1; 2; 3] /\ seq_agents (db st) = 3.
Proof.
  intros b e st.
  apply (agent_ids_sequential st). apply reachable_run, reachable_init.
Defined.

(** X17. No request removes an agent row or alters any of its fields but
    the fork count: after a request every row is where it was, with the
    same fields and a fork count that is the old one or one more, and at
    most one row was appended. *)
Theorem agents_only_grow (e : env) (r : request) (st : state) :
  let st' := fst (handle e r st) in
  (forall (k : nat) (a : Agent.t),
      agents (db st) !! k = Some a ->
      exists a', agents (db st') !! k = Some a' /\
                 without_fork_count a' = without_fork_count a /\
                 Agent.fork_count a <= Agent.fork_count a'
                   <= Agent.fork_count a + 1) /\
  (length (agents (db st)) <= length (agents (db st'))
     <= length (agents (db st)) + 1)%nat.
Proof.
  simpl.
  assert (Hsame : forall st', agents (db st') = agents (db st) ->
    (forall (k : nat) (a : Agent.t),
      agents (db st) !! k = Some a ->
      exists a', agents (db st') !! k = Some a' /\
                 without_fork_count a' = without_fork_count a /\
                 Agent.fork_count a <= Agent.fork_count a'
                   <= Agent.fork_count a + 1) /\
    (length (agents (db st)) <= length (agents (db st'))
       <= length (agents (db st)) + 1)%nat).
  { intros st' ->. split; [|lia]. intros k a Hk. exists a.
    split; [assumption|]. split; [reflexivity|lia]. }
  destruct r as [w sg| | |c s o|i|i|a s c|b];
    try (apply Hsame;
         match goal with
         | |- context [handle e ?r st] =>
             by destruct (handle_agents_other e r st) as [Ha _]
         end).
  simpl. destruct (valid_submission b) eqn:Hv.
  - rewrite post_submit_valid by assumption. simpl.
    rewrite submit_agent_agents.
    destruct (lineage b) as [i|].
    + split.
      * intros k a Hk. exists (bump i 1 a). split.
        -- rewrite list_lookup_fmap, lookup_app_l by (by eapply lookup_lt_Some).
           by rewrite Hk.
        -- split; [apply bump_fields|]. unfold bump.
           destruct (Agent.id a =? i); simpl; lia.
      * rewrite length_map, length_app. simpl. lia.
    + split.
      * intros k a Hk. exists a. split.
        -- rewrite lookup_app_l by (by eapply lookup_lt_Some). exact Hk.
        -- split; [reflexivity|lia].
      * rewrite length_app. simpl. lia.
  - apply Hsame. by rewrite post_submit_invalid.
Qed.

(** X18. In every state the handlers can produce, the fork count of an
    agent is never negative and never exceeds the number of rows whose
    lineage pointer names the agent: a count may miss forks, it never
    invents one. *)
Theorem fork_count_bounds (st : state) :
  reachable st ->
  Forall (fun a => 0 <= Agent.fork_count a
                     <= children (Agent.id a) (agents (db st)))
         (agents (db st)).
Proof.
  induction 1 as [|e r st _ IH]; [constructor|].
  destruct r as [w sg| | |c s o|i|i|a s c|b];
    try (match goal with
         | |- context [handle e ?r st] =>
             destruct (handle_agents_other e r st) as [Ha _];
             [discriminate|]
         end; rewrite Ha; exact IH).
  simpl. destruct (valid_submission b) eqn:Hv.
  - rewrite post_submit_valid by assumption. simpl.
    rewrite submit_agent_agents.
    set (row := submitted_row b (now e) (db st)).
    assert (Hnn : forall j l, 0 <= children j l).
    { intros j l. unfold children. lia. }
    destruct (lineage b) as [i|] eqn:Hl.
    + apply Forall_fmap, Forall_app. split.
      * eapply Forall_impl; [exact IH|]. intros x Hx. simpl in Hx |- *.
        rewrite children_bump, children_app, children_single, bump_id.
        unfold row at 1. simpl. rewrite Hl. unfold bump.
        destruct (Z.eqb_spec (Agent.id x) i) as [E|E]; simpl.
        -- rewrite bool_decide_eq_true_2 by congruence. lia.
        -- rewrite bool_decide_eq_false_2 by congruence. lia.
      * constructor; [|constructor]. simpl.
        rewrite children_bump, children_app, children_single, bump_id.
        unfold row, bump. simpl. rewrite Hl.
        pose proof (Hnn (seq_agents (db st) + 1) (agents (db st))).
        destruct (Z.eqb_spec (seq_agents (db st) + 1) i) as [E|E]; simpl.
        -- rewrite bool_decide_eq_true_2 by congruence. lia.
        -- rewrite bool_decide_eq_false_2 by congruence. lia.
    + apply Forall_app. split.
      * eapply Forall_impl; [exact IH|]. intros x Hx. simpl in Hx |- *.
        rewrite children_app. pose proof (Hnn (Agent.id x) [row]). lia.
      * constructor; [|constructor]. simpl.
        pose proof (Hnn (seq_agents (db st) + 1) (agents (db st) ++ [row])).
        lia.
  - by rewrite post_submit_invalid.
Qed.

Lemma fork_count_bounds_witness :
  let b o := mkSubmission (Some "Bot") (Some "d") (Some "Other")
                          (Some "http://x.com") None None None o in
  let e := mkEnv None 100 "s" in
  let st := run [(e, PostSubmit (b (Some "2"))); (e, PostSubmit (b None));
                 (e, PostSubmit (b (Some "2")))] init in
  Forall (fun a => 0 <= Agent.fork_count a
                     <= children (Agent.id a) (agents (db st)))
         (agents (db st)).
Proof.
  intros b e st. apply (fork_count_bounds st).
  apply reachable_run, reachable_init.
Defined.

(** *** From a page back to the server *)

Lemma select_agent_self (a : Agent.t) (d : store) :
  NoDup (map Agent.id (agents d)) -> a ∈ agents d ->
  select_agent (Agent.id a) d = Some a.
Proof.
  unfold select_agent. induction (agents d) as [|x l IH]; intros Hnd Hin.
  - inversion Hin.
  - cbn [map] in Hnd. apply NoDup_cons in Hnd as [Hx Hl]. simpl.
    destruct (Z.eqb_spec (Agent.id x) (Agent.id a)) as [E|E].
    + apply elem_of_cons in Hin as [->|Hin]; [reflexivity|].
      exfalso. apply Hx. rewrite E. by apply list_elem_of_fmap_2.
    + apply elem_of_cons in Hin as [->|Hin]; [congruence|]. by apply IH.
Qed.

Lemma omap_pair_Some {A B C : Type} (a : A) (f : B -> C) (l : list B) :
  omap (fun '(_, r) => f <$> r) (map (fun b => (a, Some b)) l) = map f l.
Proof.
  induction l as [|b l IH]; csimpl; [reflexivity|]. by rewrite IH.
Qed.

(** The detail query, spelled out: the agent with the id, the mean of its
    stars and the number of its ratings. *)
Lemma select_detail_spec (i : Z) (d : store) :
  select_detail i d =
    (fun a =>
       mkDetailRow a
         (coalesce_avg (map Rating.stars (ratings_for (Agent.id a) d)))
         (Z.of_nat (length (ratings_for (Agent.id a) d))))
    <$> select_agent i d.
Proof.
  unfold select_detail. destruct (select_agent i d) as [a|]; [|reflexivity].
  cbv zeta. cbn [fmap option_fmap option_map].
  rewrite left_join_single. unfold ratings_for.
  destruct (List.filter _ (ratings d)) as [|r rs]; [reflexivity|].
  by rewrite !omap_pair_Some, length_map.
Qed.

(** X19. Whatever the database holds, the detail page of an agent shows the
    mean of exactly the stars of its rating rows (0 when it has none) and
    exactly their number. *)
Theorem detail_aggregates_exact (i : Z) (d : store) (row : detail_row) :
  select_detail i d = Some row ->
  Agent.id (detail_agent row) = i /\
  detail_avg_rating row
    = coalesce_avg (map Rating.stars (ratings_for i d)) /\
  detail_rating_count row = Z.of_nat (length (ratings_for i d)).
Proof.
  rewrite select_detail_spec.
  destruct (select_agent i d) as [a|] eqn:Ha; [|discriminate].
  apply select_agent_id in Ha as [_ <-]. intros [= <-]. by repeat split.
Qed.

Lemma detail_aggregates_exact_witness :
  let row := mkDetailRow bot1 (5 # 1)%Q 1 in
  Agent.id (detail_agent row) = 1 /\
  detail_avg_rating row
    = coalesce_avg (map Rating.stars (ratings_for 1 rated_once_tagged_twice))
  /\ detail_rating_count row
     = Z.of_nat (length (ratings_for 1 rated_once_tagged_twice)).
Proof.
  intros row.
  apply (detail_aggregates_exact 1 rated_once_tagged_twice row).
  vm_compute. reflexivity.
Defined.

(** X20. Every card of the browse page links to a detail page that
    exists: the id printed into the link of a listed agent is parsed back
    and found, and the page is that agent's. *)
Theorem browse_links_resolve (category search sort : option string)
    (st : state) (row : browse_row) :
  wf_agents (db st) -> seq_agents (db st) < 10 ^ 21 ->
  row ∈ select_browse category search sort (db st) ->
  exists detail,
    get_agent (numberToString (Agent.id (agent row))) st
      = Send 200 (AgentPage detail)
    /\ detail_agent detail = agent row.
Proof.
  intros (Hseq & Hnd & Hall) Hbig Hrow.
  apply select_browse_elem in Hrow as (a & Ha & _ & ->). simpl.
  rewrite Forall_forall in Hall. pose proof (Hall a Ha) as Hid.
  unfold get_agent. rewrite printed_id_parses by lia.
  rewrite select_detail_spec, (select_agent_self a) by assumption.
  simpl. eexists. split; reflexivity.
Qed.

Lemma browse_links_resolve_witness :
  exists detail,
    get_agent "1" (mkState ∅ one_agent) = Send 200 (AgentPage detail)
    /\ Agent.name (detail_agent detail) = "Bot1".
Proof.
  destruct (browse_links_resolve None None None (mkState ∅ one_agent)
              (mkBrowseRow
                 (Agent.mk 1 "Bot1" "d" "Other" (Some "http://x.com")
                           None None None 0 false 100) None 0%Q 0 None))
    as (detail & Hpage & Hagent).
  - apply (wf_agents_handle (mkEnv None 100 "")
             (PostSubmit (mkSubmission (Some "Bot1") (Some "d") (Some "Other")
                            (Some "http://x.com") None None None None)) init).
    apply wf_agents_init.
  - reflexivity.
  - vm_compute. left.
  - exists detail. split; [exact Hpage|]. by rewrite Hagent.
Defined.

(** X21. A rating sent from the form of an agent's page, whose hidden
    field carries the printed id, is counted on that page afterwards: the
    number of ratings grows by one and the mean takes the new stars in. *)
Theorem rating_reaches_detail (stars comment : option string) (now : Z)
    (st : state) (a : Agent.t) (s : Z) :
  select_agent (Agent.id a) (db st) = Some a ->
  0 <= Agent.id a < 10 ^ 21 ->
  JS.parseInt stars = JS.Num s -> 1 <= s <= 5 ->
  let before := ratings_for (Agent.id a) (db st) in
  let st' :=
    fst (post_rate (Some (numberToString (Agent.id a))) stars comment now st)
  in
  select_detail (Agent.id a) (db st')
    = Some (mkDetailRow a
              (coalesce_avg (map Rating.stars before ++ [s]))
              (Z.of_nat (length before) + 1)).
Proof.
  intros Ha Hid Hs Hrange. simpl.
  assert (Hrej : rating_rejected (Some (numberToString (Agent.id a))) stars
                 = false).
  { unfold rating_rejected.
    rewrite printed_id_parses, Hs by lia. simpl.
    apply orb_false_iff. split; apply Z.ltb_ge; lia. }
  destruct (accepted_rating_stored _ stars comment now st Hrej)
    as (ai & si & Hai & Hsi & _ & Heq).
  rewrite printed_id_parses in Hai by lia.
  injection Hai as <-. rewrite Hs in Hsi. injection Hsi as <-.
  destruct (handle_agents_other (mkEnv None now "")
              (PostRate (Some (numberToString (Agent.id a))) stars comment)
              st ltac:(discriminate)) as [Hag _].
  simpl in Hag.
  rewrite select_detail_spec. unfold select_agent in *. rewrite Hag, Ha.
  simpl. unfold ratings_for. rewrite Heq, List.filter_app. simpl.
  rewrite Z.eqb_refl, map_app, length_app. simpl.
  rewrite Nat2Z.inj_add. reflexivity.
Qed.

Lemma rating_reaches_detail_witness :
  select_detail 1
    (db (fst (post_rate (Some "1") (Some "4") None 200
                (mkState ∅ one_agent))))
    = Some (mkDetailRow
              (Agent.mk 1 "Bot1" "d" "Other" (Some "http://x.com")
                        None None None 0 false 100) (4 # 1)%Q 1).
Proof.
  apply (rating_reaches_detail (Some "4") None 200 (mkState ∅ one_agent)
           (Agent.mk 1 "Bot1" "d" "Other" (Some "http://x.com")
                     None None None 0 false 100) 4).
  - reflexivity.
  - split; [by vm_compute|reflexivity].
  - reflexivity.
  - lia.
Defined.

(** X22. Forking goes through: for an agent of a state the handlers can
    produce, [GET /fork/:id] with its printed id answers with a draft, and
    the draft's parameters, posted as they are, pass the checks of
    [POST /submit], add one to the agent's fork count and store a new row
    named after it that points at it. *)
Theorem fork_draft_accepted (u : option string) (now : Z) (st : state)
    (i : Z) (a : Agent.t) :
  reachable st ->
  select_agent i (db st) = Some a ->
  seq_agents (db st) < 10 ^ 21 ->
  exists draft l,
    get_fork (numberToString i) st = RedirectSubmit draft /\
    Agent.link a = Some l /\
    valid_submission (fork_query draft) = true /\
    let st' := fst (post_submit u (fork_query draft) now st) in
    select_agent i (db st') = Some (Agent.add_forks 1 a) /\
    select_agent (seq_agents (db st) + 1) (db st')
      = Some (Agent.mk (seq_agents (db st) + 1)
                       ("Fork of " ++ Agent.name a)%string
                       (Agent.description a) (Agent.category a) (Some l)
                       None None (Some i) 0 false now).
Proof.
  intros Hr Ha Hbig.
  pose proof (reachable_wf_agents st Hr) as Hwf.
  pose proof (select_agent_bound _ _ _ Hwf Ha) as Hi.
  pose proof (select_agent_id _ _ _ Ha) as [Hin Hida].
  assert (Hchk : Forall agent_checked (agents (db st))).
  { clear -Hr. induction Hr as [|e r st _ IH]; [constructor|].
    by apply agents_checked_step. }
  rewrite Forall_forall in Hchk.
  destruct (Hchk a Hin) as (Hn & Hd & Hc & l & Hl & Hlne & Hurl).
  set (draft := mkForkData ("Fork of " ++ Agent.name a)%string
                  (Agent.description a) (Agent.category a) (Agent.link a)
                  (Agent.id a)).
  assert (Hparse : JS.parseInt (Some (numberToString i)) = JS.Num i)
    by (apply printed_id_parses; lia).
  assert (Hvalid : valid_submission (fork_query draft) = true).
  { unfold valid_submission, fields_present, link_well_formed, fork_query,
      draft.
    cbn [name description category link fork_name fork_description
         fork_category fork_link].
    rewrite Hl. cbn [JS.toString].
    rewrite (truthy_Some ("Fork of " ++ Agent.name a)) by (simpl; discriminate).
    rewrite (truthy_Some _ Hd), (truthy_Some _ Hc), (truthy_Some _ Hlne).
    exact Hurl. }
  assert (Hlin : lineage (fork_query draft) = Some i).
  { apply lineage_Some; [|lia]. simpl. by rewrite Hida. }
  exists draft, l. split; [|split; [exact Hl|split; [exact Hvalid|]]].
  - unfold get_fork. by rewrite Hparse, Ha.
  - simpl. rewrite post_submit_valid by assumption. simpl.
    unfold select_agent in *. rewrite submit_agent_agents, Hlin.
    rewrite !find_id_bump.
    set (row := submitted_row (fork_query draft) now (db st)).
    split.
    + rewrite (find_app_Some _ _ _ _ Ha). simpl. unfold bump.
      apply Z.eqb_eq in Hida. by rewrite Hida.
    + rewrite find_app_None.
      2:{ apply find_None_all. intros x Hx.
          destruct Hwf as (_ & _ & Hall). rewrite Forall_forall in Hall.
          specialize (Hall x Hx). lia. }
      simpl. rewrite Z.eqb_refl. simpl.
      rewrite bump_other by (simpl; lia).
      unfold row, submitted_row. simpl. rewrite Hlin, Hl. reflexivity.
Qed.

Lemma fork_draft_accepted_witness :
  let st :=
    run [(mkEnv None 100 "s",
          PostSubmit (mkSubmission (Some "Bot1") (Some "d") (Some "Other")
                                   (Some "http://x.com") None None None None))]
        init in
  exists draft l,
    get_fork "1" st = RedirectSubmit draft /\
    Agent.link bot1 = Some l /\
    valid_submission (fork_query draft) = true /\
    let st' := fst (post_submit None (fork_query draft) 200 st) in
    select_agent 1 (db st') = Some (Agent.add_forks 1 bot1) /\
    select_agent 2 (db st')
      = Some (Agent.mk 2 "Fork of Bot1" "d" "Other" (Some l)
                       None None (Some 1) 0 false 200).
Proof.
  intros st.
  apply (fork_draft_accepted None 200 st 1 bot1).
  - apply reachable_run, reachable_init.
  - reflexivity.
  - reflexivity.
Defined.

(** *** Browse: completeness and the other orders *)

Lemma filter_always {A : Type} (p : A -> bool) (l : list A) :
  (forall a, p a = true) -> List.filter p l = l.
Proof.
  intros H. induction l as [|a l IH]; simpl; [reflexivity|].
  by rewrite H, IH.
Qed.

Lemma map_agent_browse_group (d : store) (l : list Agent.t) :
  map agent (map (browse_group d) l) = l.
Proof. rewrite map_map. simpl. apply map_id. Qed.

(** X23. Without a filter the browse page lists every agent of the table
    exactly once, in any sort mode; a category of "all" and an empty search
    text are no filter. *)
Theorem browse_lists_every_agent (sort : option string) (d : store) :
  map agent (select_browse None None sort d) ≡ₚ agents d /\
  select_browse (Some "all") (Some "") sort d = select_browse None None sort d.
Proof.
  split.
  - unfold select_browse. rewrite merge_sort_Permutation.
    rewrite filter_always by reflexivity.
    by rewrite map_agent_browse_group.
  - unfold select_browse.
    rewrite !filter_always by reflexivity. reflexivity.
Qed.

Lemma sorted_by_key (sort : option string) (d : store)
    (category search : option string) (P : relation browse_row) :
  (forall x y, order_rel sort x y <-> P x y) ->
  Transitive P -> Total P ->
  forall (i j : nat) (x y : browse_row),
    (i < j)%nat ->
    select_browse category search sort d !! i = Some x ->
    select_browse category search sort d !! j = Some y ->
    P x y.
Proof.
  intros Hspec Htr Htot i j x y Hij Hi Hj.
  apply Hspec.
  assert (Htr' : Transitive (order_rel sort)).
  { intros a b c Hab Hbc. apply Hspec. apply Hspec in Hab, Hbc.
    by transitivity b. }
  assert (Htot' : Total (order_rel sort)).
  { intros a b. destruct (Htot a b); [left|right]; by apply Hspec. }
  eapply StronglySorted_lookup; [|exact Hij|exact Hi|exact Hj].
  unfold select_browse. by apply StronglySorted_merge_sort.
Qed.

(** X24. Under [sort = "forks"] the rows come out with the fork count never
    increasing from one row to a later one. *)
Theorem browse_forks_sorted (category search : option string) (d : store)
    (i j : nat) (x y : browse_row) :
  (i < j)%nat ->
  select_browse category search (Some "forks") d !! i = Some x ->
  select_browse category search (Some "forks") d !! j = Some y ->
  Agent.fork_count (agent y) <= Agent.fork_count (agent x).
Proof.
  apply (sorted_by_key (Some "forks") d category search
           (fun x y => Agent.fork_count (agent y)
                       <= Agent.fork_count (agent x))).
  - intros a b. unfold order_rel, order_clause.
    rewrite bool_decide_eq_false_2 by discriminate.
    rewrite bool_decide_eq_true_2 by reflexivity. apply Z.leb_le.
  - intros a b c ??. lia.
  - intros a b. lia.
Qed.

Lemma browse_forks_sorted_witness :
  let row i n o f :=
    mkBrowseRow (Agent.mk i n "d" "Other" (Some "http://x.com")
                          None None o f false 100) None 0%Q 0 None in
  Agent.fork_count (agent (row 3 "C" (Some 2) 0))
    <= Agent.fork_count (agent (row 2 "B" None 1)).
Proof.
  intros row.
  pose (b n o := mkSubmission (Some n) (Some "d") (Some "Other")
                              (Some "http://x.com") None None None o).
  pose (e := mkEnv None 100 "s").
  apply (browse_forks_sorted None None
           (db (run [(e, PostSubmit (b "A" None)); (e, PostSubmit (b "B" None));
                     (e, PostSubmit (b "C" (Some "2")))] init))
           0 1 (row 2 "B" None 1) (row 3 "C" (Some 2) 0)).
  - lia.
  - vm_compute. reflexivity.
  - vm_compute. reflexivity.
Defined.

(** X25. Under every sort mode other than "rating", "forks" and "trending"
    (a missing one and "recent" among them) the rows come out newest
    first: the creation time never increases from one row to a later
    one. *)
Theorem browse_recent_sorted (category search sort : option string)
    (d : store) (i j : nat) (x y : browse_row) :
  sort <> Some "rating" -> sort <> Some "forks" -> sort <> Some "trending" ->
  (i < j)%nat ->
  select_browse category search sort d !! i = Some x ->
  select_browse category search sort d !! j = Some y ->
  Agent.created_at (agent y) <= Agent.created_at (agent x).
Proof.
  intros H1 H2 H3.
  apply (sorted_by_key sort d category search
           (fun x y => Agent.created_at (agent y)
                       <= Agent.created_at (agent x))).
  - intros a b. unfold order_rel, order_clause.
    rewrite !bool_decide_eq_false_2 by assumption. apply Z.leb_le.
  - intros a b c ??. lia.
  - intros a b. lia.
Qed.

Lemma browse_recent_sorted_witness :
  let row i n t :=
    mkBrowseRow (Agent.mk i n "d" "Other" (Some "http://x.com")
                          None None None 0 false t) None 0%Q 0 None in
  Agent.created_at (agent (row 1 "A" 100))
    <= Agent.created_at (agent (row 2 "B" 200)).
Proof.
  intros row.
  pose (b n := mkSubmission (Some n) (Some "d") (Some "Other")
                            (Some "http://x.com") None None None None).
  apply (browse_recent_sorted None None (Some "recent")
           (db (run [(mkEnv None 100 "s", PostSubmit (b "A"));
                     (mkEnv None 200 "s", PostSubmit (b "B"))] init))
           0 1 (row 2 "B" 200) (row 1 "A" 100)).
  - discriminate.
  - discriminate.
  - discriminate.
  - lia.
  - vm_compute. reflexivity.
  - vm_compute. reflexivity.
Defined.


(** *** Frames *)

(** X26. A request touches no session but its own: a session id that is
    neither the one the request carries nor the one a login is about to
    issue resolves after the request as it did before. *)
Theorem other_sessions_kept (e : env) (r : request) (st : state)
    (t : string) :
  x_session_id e <> Some t -> fresh e <> t ->
  checkSession (Some t) (fst (handle e r st)) = checkSession (Some t) st.
Proof.
  intros Hx Hf. unfold checkSession.
  destruct (JS.truthy (Some t)); [|reflexivity]. cbn [JS.toString].
  destruct r as [w sg| | |c s o|i|i|a s c|b];
    try (by rewrite handle_sessions_other by discriminate).
  - simpl. unfold post_login. destruct (JS.truthy w); simpl; [|reflexivity].
    by apply lookup_insert_ne.
  - simpl. unfold post_logout.
    destruct (JS.truthy (x_session_id e)) eqn:Ht; simpl; [|reflexivity].
    apply lookup_delete_ne. destruct (x_session_id e) as [x|]; simpl.
    + congruence.
    + discriminate.
Qed.

Lemma other_sessions_kept_witness :
  let st := fst (post_login (Some "0xabc") 100 "s1" init) in
  checkSession (Some "s1")
    (fst (handle (mkEnv (Some "s2") 200 "s3") PostLogout
            (fst (handle (mkEnv None 150 "s2")
                    (PostLogin (Some "0xdef") None) st))))
    = Some "0xabc".
Proof.
  intros st.
  rewrite (other_sessions_kept (mkEnv (Some "s2") 200 "s3") PostLogout _ "s1")
    by discriminate.
  rewrite (other_sessions_kept (mkEnv None 150 "s2")
             (PostLogin (Some "0xdef") None) st "s1") by discriminate.
  reflexivity.
Defined.

Lemma find_wallet_filter (w w' : string) (l : list User.t) :
  w <> w' ->
  List.find (fun u => bool_decide (User.wallet_address u = w))
            (filter (fun u => User.wallet_address u <> w') l)
    = List.find (fun u => bool_decide (User.wallet_address u = w)) l.
Proof.
  intros Hne. induction l as [|u l IH]; [reflexivity|].
  rewrite filter_cons.
  destruct (decide (User.wallet_address u <> w')) as [Hk|Hk]; simpl.
  - by rewrite IH.
  - rewrite IH. rewrite bool_decide_eq_false_2; [reflexivity|].
    intros E. apply Hk. congruence.
Qed.

(** X27. A login replaces the row of its own wallet only: the row of every
    other wallet is read back after the login exactly as before, tier,
    handles and timestamps included. *)
Theorem login_keeps_other_users (w w' : string) (now : Z) (fresh : string)
    (st : state) :
  w <> w' ->
  select_user w (db (fst (post_login (Some w') now fresh st)))
    = select_user w (db st).
Proof.
  intros Hne. unfold post_login.
  destruct (JS.truthy (Some w')); simpl; [|reflexivity].
  unfold select_user, insert_or_replace_user. simpl.
  destruct (List.find (fun u => bool_decide (User.wallet_address u = w))
                      (users (db st))) as [u|] eqn:E.
  - apply find_app_Some. by rewrite find_wallet_filter.
  - rewrite find_app_None by (by rewrite find_wallet_filter).
    simpl. rewrite bool_decide_eq_false_2 by congruence. reflexivity.
Qed.

Lemma login_keeps_other_users_witness :
  let agency :=
    mkState ∅ (mkStore [User.mk 1 "0xabc" "agency" (Some "alice.lens")
                                (Some "alice") 100 150]
                       [] [] [] [] 1 0 0) in
  select_user "0xabc" (db (fst (post_login (Some "0xdef") 200 "s2" agency)))
    = Some (User.mk 1 "0xabc" "agency" (Some "alice.lens") (Some "alice")
                    100 150).
Proof.
  intros agency.
  rewrite (login_keeps_other_users "0xabc" "0xdef" 200 "s2" agency)
    by discriminate.
  reflexivity.
Defined.

(** X28. A rating for an id that no agent has is accepted like any other:
    the row is stored, and no detail page exists that would count it. The
    id is one that a JavaScript number holds exactly, at most 2^53 in
    magnitude. *)
Theorem rating_of_unknown_agent (agent_id stars comment : option string)
    (now : Z) (st : state) (a s : Z) :
  JS.parseInt agent_id = JS.Num a -> - 2 ^ 53 <= a <= 2 ^ 53 ->
  JS.parseInt stars = JS.Num s -> 1 <= s <= 5 ->
  select_agent a (db st) = None ->
  let st' := fst (post_rate agent_id stars comment now st) in
  ratings (db st')
    = ratings (db st)
      ++ [Rating.mk (seq_ratings (db st) + 1) a None s
                    (if JS.truthy comment then comment else None) now] /\
  select_detail a (db st') = None.
Proof.
  intros Ha _ Hs Hrange Hnone. simpl.
  assert (Hrej : rating_rejected agent_id stars = false).
  { unfold rating_rejected. rewrite Ha, Hs. simpl.
    apply orb_false_iff. split; apply Z.ltb_ge; lia. }
  destruct (accepted_rating_stored agent_id stars comment now st Hrej)
    as (a' & s' & Ha' & Hs' & _ & Heq).
  rewrite Ha in Ha'. injection Ha' as <-.
  rewrite Hs in Hs'. injection Hs' as <-.
  split; [exact Heq|].
  destruct (handle_agents_other (mkEnv None now "")
              (PostRate agent_id stars comment) st ltac:(discriminate))
    as [Hag _].
  simpl in Hag. rewrite select_detail_spec.
  unfold select_agent in *. by rewrite Hag, Hnone.
Qed.

Lemma rating_of_unknown_agent_witness :
  let st' := fst (post_rate (Some "7") (Some "5") None 100 init) in
  ratings (db st') = [Rating.mk 1 7 None 5 None 100] /\
  select_detail 7 (db st') = None.
Proof.
  intros st'.
  apply (rating_of_unknown_agent (Some "7") (Some "5") None 100 init 7 5);
    [reflexivity|lia|reflexivity|lia|reflexivity].
Defined.

(** X29. As long as every submitted lineage pointer names an agent of the
    table, as the draft of [GET /fork/:id] does, the fork count of every
    agent is exactly the number of rows that point at it. *)
Theorem forks_counted_when_guarded (st : state) (a : Agent.t) :
  reachable_guarded st -> a ∈ agents (db st) ->
  Agent.fork_count a = children (Agent.id a) (agents (db st)).
Proof.
  intros Hg Ha. pose proof (fork_invariant_guarded st Hg) as Hinv.
  unfold fork_invariant in Hinv. rewrite Forall_forall in Hinv.
  by apply Hinv.
Qed.

Lemma forks_counted_when_guarded_witness :
  let b n o := mkSubmission (Some n) (Some "d") (Some "Other")
                            (Some "http://x.com") None None None o in
  let e := mkEnv None 100 "s" in
  let st := run [(e, PostSubmit (b "Bot1" None));
                 (e, PostSubmit (b "Fork of Bot1" (Some "1")))] init in
  Agent.fork_count (Agent.add_forks 1 bot1)
    = children 1 (agents (db st)).
Proof.
  intros b e st.
  apply (forks_counted_when_guarded st (Agent.add_forks 1 bot1)).
  - apply (guarded_step e (PostSubmit (b "Fork of Bot1" (Some "1")))
             (fst (handle e (PostSubmit (b "Bot1" None)) init))).
    + apply (guarded_step e (PostSubmit (b "Bot1" None)) init).
      * apply guarded_init.
      * exact I.
    + vm_compute. by eexists.
  - vm_compute. left.
Defined.
